(* ===== verification/_CoqProject ===== *)
-Q . S2P
Prelude.v
Json.v
Combinators.v
Devices.v
Profiles.v
Stringify.v
Parse.v
Truncate.v
Minify.v
Document.v
Schema.v
Layer.v
