(* ===== verification/Prelude.v ===== *)
(** * A verification development of [src/karabiner.js]

    ** The program
    [src/karabiner.js] is a Node script that builds one JavaScript value,
    the configuration of the keyboard remapper Karabiner-Elements, and prints
    it: [JSON.stringify(document, null, 2)] followed by a newline, in one
    [process.stdout.write] (lines 350-363).  The value is assembled from
    - three combinators returning lists of mapping entries: [fromTo]
      (lines 7-18), [spaceFN] (20-86, a chord manipulator that turns a
      [SpaceFN] variable on, and a conditional one that reads it) and [swap]
      (88-90);
    - device descriptors built by spreading defaults and overriding fields:
      [DEVICE_DEFAULTS], [IDENTIFIER_DEFAULTS], [APPLE_INTERNAL],
      [REALFORCE], [YUBIKEY] (92-138);
    - two profiles: [VANILLA_PROFILE] (147-174), and [DEFAULT_PROFILE]
      (176-348), which spreads Vanilla, overrides five fields and holds five
      complex-modification rules (SpaceFN layer, Caps, Return, Tab, Shift).
    Karabiner-Elements, outside the repository, parses the text and runs the
    manipulators on key events (spec sections 1, 3 and 4).

    ** Files, in dependency order
    - [Prelude.v] (this file): the notation scope [kb_scope] ([+s+] for
      string append), the hint databases [kb] and [kb_simpl], the tactics
      [kb_cases], [kb_decide], [kb_eval], string-keyed association lists
      ([assoc_get], [assoc_set] = CreateDataProperty) with their laws and
      their refinement into stdpp's [gmap], and list and string lemmas.
    - [Json.v]: the values the program builds ([json]); object literals
      with spread ([obj_lit], [prop_step], [copy_data]) and array literals
      with spread ([arr_lit]) as ECMA-262 evaluates them.
    - [Combinators.v]: [fromTo], [set_variable], [spaceFN], [swap],
      literally; [simple_remap], the reading of a simple-modification list.
    - [Devices.v]: the five descriptor constants of lines 92-138.
    - [Profiles.v]: [PARAMETER_DEFAULTS], [VANILLA_FN_KEYS],
      [VANILLA_PROFILE], the five rules ([SPACEFN_RULE] ... [SHIFT_RULE]),
      [DEFAULT_PARAMETERS], [DEFAULT_SIMPLE_MODIFICATIONS] (the
      [simple_modifications] literal of lines 330-347), [DEFAULT_PROFILE].
    - [Stringify.v]: [JSON.stringify] with a number [space] argument
      ([JSON_stringify], [ser], [wrap], [quote_json_string],
      [number_to_string], [gap_of_space]), after ECMA-262.
    - [Parse.v]: a recursive-descent [JSON.parse] ([parse_json]) for the
      reader's side, escape sequences included, its fuel bound, and the
      round trip.
    - [Truncate.v]: the reader on a text cut short: a strict prefix of a
      printed array or object is rejected, so a prefix of the output reads
      as the value or not at all ([parse_json_prefix]).
    - [Minify.v]: [minify], a JSON lexer that drops the whitespace outside
      strings, the reference against which the indented printer is
      compared with the compact one.
    - [Document.v]: [GLOBAL], [DOCUMENT], [OUTPUT], and the write to
      standard output as an explicit state ([stdout_write], [main]): the
      stream is the text written so far and the number of bytes its reader
      still takes; a longer write is cut there and fails with [EPIPE].
    - [Schema.v]: the data model of spec section 3 as JSON types ([ty]),
      a checker [has_type] proved equivalent to a typing relation [typed]
      ([has_type_spec]), the types [KeyAction_ty] ... [Document_ty], and
      type preservation of object spread.
    - [Layer.v]: the part of the consumer runtime that spec sections 3 and
      4.3 describe (variable store, key and chord events, first match,
      [variable_if], [set_variable], [to_after_key_up]) as a step function
      [step], its iteration [run] (= [run_with step]), reachability
      [reachable]; and the layer of section 4.3 as an abstract table
      machine [layer_step], [layer_machine].

    ** What is proved
    - Literals (Json.v): an object literal refines a fold of [gmap] unions
      and insertions ([obj_lit_refines]) and keeps every key at its first
      definition ([obj_lit_keys]).
    - Combinators and devices: [swap] exchanges two keys ([swap_remap]),
      [fromTo] remaps one key ([fromTo_remap]), the Realforce descriptor
      remaps exactly the keys of [realforce_table] ([realforce_remap]).
    - Profiles: Default inherits every non-overridden field of Vanilla in
      place ([default_profile_inherits]); its parameters
      ([default_parameters]); its simple modifications send Caps Lock to
      Control and Escape to Caps Lock ([default_simple_remap]).
    - Output: every value whose objects have distinct keys, whatever its
      strings, is read back from its printed text for every indentation
      ([stringify_roundtrip]); indentation only adds whitespace:
      minifying [JSON.stringify(v, null, n)] gives [JSON.stringify(v)]
      ([minify_stringify]).  Lemmas of Document.v check that the document
      satisfies the conditions under which [ser] is JavaScript's printer
      (integers below 2^53, no array-index key, no string needing an
      escape).
    - Error path ([main_outcome]): whatever the reader of standard output
      takes before closing, the stream gains a prefix of the output, the
      exit status is 0 exactly when all of it got through, and the prefix
      reads as the document once the printed document is there (at worst
      the final newline is lost) and as a parse error before: a cut write
      never yields another configuration.
    - Types (Schema.v): spreading an object of a closed object type and
      overriding fields with values of their types keeps the type
      ([obj_lit_typed]); the Default profile is typed this way from Vanilla.
    - Behaviour (Layer.v): [spaceFN x y] implements the layer of spec 4.3
      for symbolic [x], [y] after any manipulators that leave its events
      alone ([spaceFN_layer]); it is strict about order: the chord pressed
      key-first, or released space-first, is left to the manipulators after
      it ([spaceFN_chord_strict]); the order of its two entries does not
      change any step, which answers the open question of spec section 9
      for the model ([spaceFN_order_irrelevant]); the SpaceFN pairs of any
      table are the table machine ([spaceFN_table_step]), so from every
      store and on every trace of events on layer keys the Default profile
      behaves as the machine over the table of lines 187-205
      ([default_layer_refines]); every reachable store is empty or holds
      [SpaceFN] alone, at 0 or 1, by rule induction
      ([reachable_store_shape]).
    - Findings, each backed by a lemma: key codes -, =, PageDown, PageUp
      break the key-code spelling ([nonconforming_key_codes]); the layer
      emits fast_forward where the F-row emits fastforward
      ([layer_number_row_vs_fn_row]); the SpaceFN chord window is 500 ms
      against a profile default of 50 ms, not the 1000 ms a comment states
      ([spacefn_threshold_vs_profile]); the Return rule emits
      [right_command] although described as Control
      ([return_rule_held_key]); [fromTo] writes [to] as one key action, not
      the sequence section 3 describes ([fromTo_not_mapping_entry]); the
      spec does not say what a chord released in the other order does, and
      read as the spec reads the option it leaves the layer on
      ([spaceFN_chord_strict]).

    ** Bounds and fuel
    Numbers are [Z]: the program writes only integers in [0, 2^53), checked
    of the document, for which JavaScript's Number::toString is the decimal
    numeral [number_to_string] prints.  [parse_value] takes fuel, and
    [parse_json] gives it the length of the text.  Every reader consumes
    input ([parse_value_len]), so fuel at least the length gives the
    result of the unbounded recursion ([parse_value_fuel]); each value
    consumes at least one character per unit of [json_size]
    ([json_size_le_length]), which is enough for the round trip and for
    the truncation lemmas, whose prefixes are read with the fuel of the
    whole text.  [run_with] is structural on the event list; every other
    definition is structural.

    ** Not modelled
    - Array-index keys, which JavaScript enumerates first: the document has
      none, so creation order is the enumeration order.
    - Characters beyond one byte: strings are one-byte characters, read as
      JavaScript's UTF-16 code units for ASCII; a [\u] escape of a code
      of 256 or more is rejected by the model's reader.
    - In the runtime: modifiers, [lazy], [to_if_alone], [to_if_held_down],
      timing of the chord window, device matching.  The runtime is outside
      the repository and spec section 1 puts it out of scope; section 3
      names these fields without their meaning, so a model of them would
      be invented rather than translated.  The theorems concern events
      they do not affect.
    - Node's module loading; of the operating system's stream, only the
      number of bytes the reader takes before closing is modelled (one
      write, cut there, failing with [EPIPE]; the exit status 1 is Node's
      behaviour on an unhandled stream error, not a line of the source);
      writes the stream splits but delivers whole are one write. *)

From stdpp Require Export base list gmap strings.
From Stdlib Require Export String ZArith.

(** ** Notation *)

Declare Scope kb_scope.
Delimit Scope kb_scope with kb.

(** String concatenation; [++] stays list concatenation. *)
Notation "s1 +s+ s2" := (String.append s1 s2)
  (at level 60, right associativity) : kb_scope.

Open Scope kb_scope.

(** ** Automation *)

Create HintDb kb discriminated.
Create Rewrite HintDb kb_simpl.

(** Close a goal about a closed term of the development by evaluation. *)
Ltac kb_eval := vm_compute; reflexivity.

(** ** Association lists

    A JavaScript object with ordinary (non array-index) keys is an ordered
    list of properties in insertion order.  [assoc_get] is [[[Get]]] on such
    an object; [assoc_set] is CreateDataProperty: an existing key keeps its
    position and gets the new value, a new key is appended at the end.
    Keys are compared with [String.eqb], which [simpl] evaluates on the
    literal keys of the program. *)

(** Case analysis on every string comparison [String.eqb x y] of the goal. *)
Ltac kb_str_cases :=
  repeat match goal with
  | |- context [String.eqb ?x ?y] => destruct (String.eqb_spec x y); subst
  end.

(** Evaluate, splitting on the comparisons and decisions that do not
    evaluate, until every branch is closed or no case is left. *)
Ltac kb_cases :=
  repeat (cbn in *;
          first [ match goal with
                  | |- context [String.eqb ?x ?y] => destruct (String.eqb_spec x y); subst
                  end
                | case_decide; subst ]);
  cbn in *; try congruence.

Section Assoc.
Context {A : Type}.

Fixpoint assoc_get (l : list (string * A)) (k : string) : option A :=
  match l with
  | [] => None
  | (k', v) :: l' => if String.eqb k k' then Some v else assoc_get l' k
  end.

Fixpoint assoc_set (l : list (string * A)) (k : string) (v : A) : list (string * A) :=
  match l with
  | [] => [(k, v)]
  | (k', v') :: l' =>
      if String.eqb k k' then (k, v) :: l' else (k', v') :: assoc_set l' k v
  end.

(** Well-formedness of an object: no key occurs twice. *)
Definition assoc_wf (l : list (string * A)) : Prop := NoDup l.*1.

Lemma assoc_get_set l k k' v :
  assoc_get (assoc_set l k v) k' = if decide (k = k') then Some v else assoc_get l k'.
Proof.
  induction l as [|[k0 v0] l IH]; simpl.
  - kb_str_cases; case_decide; congruence.
  - kb_str_cases; simpl; kb_str_cases; rewrite ?IH; case_decide; congruence.
Qed.

Lemma assoc_get_set_eq l k v : assoc_get (assoc_set l k v) k = Some v.
Proof. by rewrite assoc_get_set, decide_True. Qed.

Lemma assoc_get_set_ne l k k' v :
  k ≠ k' → assoc_get (assoc_set l k v) k' = assoc_get l k'.
Proof. intros. by rewrite assoc_get_set, decide_False. Qed.

Lemma assoc_get_cons l k k' v :
  assoc_get ((k', v) :: l) k = if decide (k = k') then Some v else assoc_get l k.
Proof. simpl. kb_str_cases; case_decide; congruence. Qed.

Lemma assoc_get_None l k : assoc_get l k = None ↔ k ∉ l.*1.
Proof.
  induction l as [|[k' v'] l IH]; [set_solver|].
  rewrite assoc_get_cons, fmap_cons, elem_of_cons. case_decide; naive_solver.
Qed.

Lemma assoc_get_Some_elem l k v : assoc_get l k = Some v → k ∈ l.*1.
Proof.
  intros H. destruct (decide (k ∈ l.*1)) as [|Hn]; [done|].
  apply assoc_get_None in Hn. congruence.
Qed.

Lemma assoc_set_keys l k v :
  (assoc_set l k v).*1 = if decide (k ∈ l.*1) then l.*1 else l.*1 ++ [k].
Proof.
  induction l as [|[k' v'] l IH]; [done|].
  cbn [assoc_set]. destruct (String.eqb_spec k k') as [->|Hne];
    rewrite !fmap_cons; cbn [fst].
  - rewrite decide_True; [done|set_solver].
  - rewrite IH. repeat case_decide; first [reflexivity|set_solver].
Qed.

Lemma assoc_set_keys_elem l k v k' : k' ∈ (assoc_set l k v).*1 ↔ k' = k ∨ k' ∈ l.*1.
Proof.
  rewrite assoc_set_keys. case_decide; rewrite ?elem_of_app; set_solver.
Qed.

Lemma assoc_set_wf l k v : assoc_wf l → assoc_wf (assoc_set l k v).
Proof.
  unfold assoc_wf. rewrite assoc_set_keys. case_decide as Hk; [done|].
  intros Hnd. apply NoDup_app. split; [done|]. split; [|apply NoDup_singleton].
  set_solver.
Qed.

Lemma assoc_set_elem l k v kv : kv ∈ assoc_set l k v → kv = (k, v) ∨ kv ∈ l.
Proof.
  induction l as [|[k' v'] l IH]; cbn [assoc_set]; [set_solver|].
  destruct (String.eqb k k'); rewrite elem_of_cons; [set_solver|].
  intros [->|Hin]; [set_solver|]. destruct (IH Hin); set_solver.
Qed.

(** What holds of every property, and of the new one, holds after a set. *)
Lemma Forall_assoc_set (P : string * A → Prop) l k v : Forall P l → P (k, v) → Forall P (assoc_set l k v).
Proof.
  rewrite !Forall_forall. intros Hl Hkv kv [->|Hin]%assoc_set_elem; auto.
Qed.

(** Two well-formed objects with the same key order and the same lookups
    are the same list. *)
Lemma assoc_ext l1 l2 :
  assoc_wf l1 → l1.*1 = l2.*1 → (∀ k, assoc_get l1 k = assoc_get l2 k) → l1 = l2.
Proof.
  unfold assoc_wf. revert l2.
  induction l1 as [|[k1 v1] l1 IH]; intros [|[k2 v2] l2] Hnd Hk Hget;
    try done; try discriminate.
  rewrite !fmap_cons in Hk, Hnd; cbn [fst] in Hk, Hnd.
  injection Hk as -> Hk. apply NoDup_cons in Hnd as [Hnin Hnd].
  pose proof (Hget k2) as Hv. rewrite !assoc_get_cons, !decide_True in Hv by done.
  injection Hv as ->. f_equal. apply IH; [done|done|].
  intros k. specialize (Hget k). rewrite !assoc_get_cons in Hget.
  case_decide; [subst|done].
  assert (k2 ∉ l2.*1) by exact (eq_rect _ (λ l, k2 ∉ l) Hnin _ Hk).
  by rewrite !(proj2 (assoc_get_None _ k2)) by done.
Qed.

(** The abstract view of an object: a finite map (order forgotten).
    [list_to_map] lets the first binding of a key win, as [assoc_get] does. *)
Lemma assoc_to_map_lookup (l : list (string * A)) k :
  (list_to_map l : gmap string A) !! k = assoc_get l k.
Proof.
  induction l as [|[k' v'] l IH]; [apply lookup_empty|].
  rewrite list_to_map_cons, lookup_insert, assoc_get_cons.
  case_decide; case_decide; subst; congruence.
Qed.

Lemma assoc_set_to_map (l : list (string * A)) k v :
  (list_to_map (assoc_set l k v) : gmap string A) = <[k:=v]> (list_to_map l).
Proof.
  apply map_eq. intros k'.
  rewrite assoc_to_map_lookup, lookup_insert, assoc_to_map_lookup, assoc_get_set.
  done.
Qed.
End Assoc.

#[export] Hint Rewrite @assoc_get_set_eq @assoc_get_set : kb_simpl.
#[export] Hint Resolve assoc_set_wf : kb.

(** ** Filters whose predicates agree on the list *)

Lemma filter_ext_in {A} (P Q : A → Prop) `{∀ x, Decision (P x)} `{∀ x, Decision (Q x)}
    (l : list A) :
  (∀ x, x ∈ l → P x ↔ Q x) → filter P l = filter Q l.
Proof.
  induction l as [|x l IH]; intros HPQ; [done|].
  rewrite !filter_cons.
  rewrite IH by (intros y Hy; apply HPQ; set_solver).
  pose proof (HPQ x ltac:(set_solver)).
  repeat case_decide; naive_solver.
Qed.

Lemma filter_all_in {A} (P : A → Prop) `{∀ x, Decision (P x)} (l : list A) :
  (∀ x, x ∈ l → P x) → filter P l = l.
Proof.
  induction l as [|x l IH]; intros HP; [done|].
  rewrite filter_cons, decide_True, IH by set_solver. done.
Qed.

(** ** First-occurrence order

    [fold_left add_key l acc] appends to [acc] the elements of [l] that are
    not yet there, in the order of their first occurrence. *)

Definition add_key {K} `{EqDecision K} (acc : list K) (k : K) : list K :=
  if decide (k ∈ acc) then acc else acc ++ [k].

(** Discharge a decidable proposition about closed data by evaluation. *)
Ltac kb_decide := apply (bool_decide_unpack _); vm_compute; exact I.

Lemma filter_none_in {A} (P : A → Prop) `{∀ x, Decision (P x)} (l : list A) :
  (∀ x, x ∈ l → ¬ P x) → filter P l = [].
Proof.
  induction l as [|x l IH]; intros HP; [done|].
  rewrite filter_cons, decide_False, IH by set_solver. done.
Qed.


(** ** Searching a list *)

Lemma find_app {A} (f : A → bool) (l1 l2 : list A) :
  List.find f (l1 ++ l2) = match List.find f l1 with Some a => Some a | None => List.find f l2 end.
Proof. induction l1 as [|a l1 IH]; simpl; [done|]. by destruct (f a). Qed.

Lemma find_none {A} (f : A → bool) (l : list A) :
  (∀ a, a ∈ l → f a = false) → List.find f l = None.
Proof.
  induction l as [|a l IH]; intros Hf; simpl; [done|].
  rewrite Hf by set_solver. apply IH. intros b Hb. apply Hf. set_solver.
Qed.

(** ** String concatenation *)

(** stdpp makes [String.append] [simpl never]; these are its equations. *)
Lemma sapp_nil_l (a : string) : EmptyString +s+ a = a.
Proof. reflexivity. Qed.

Lemma sapp_cons x (a b : string) : String x a +s+ b = String x (a +s+ b).
Proof. reflexivity. Qed.

Lemma sapp_assoc (a b c : string) : (a +s+ b) +s+ c = a +s+ (b +s+ c).
Proof. induction a as [|x a IH]; [done|by rewrite !sapp_cons, IH]. Qed.

Lemma sapp_nil_r (a : string) : a +s+ EmptyString = a.
Proof. induction a as [|x a IH]; [done|by rewrite sapp_cons, IH]. Qed.

Lemma slength_app (a b : string) : String.length (a +s+ b) = String.length a + String.length b.
Proof. induction a as [|x a IH]; [done|rewrite sapp_cons; simpl; by rewrite IH]. Qed.

#[export] Hint Rewrite sapp_nil_l sapp_cons sapp_assoc sapp_nil_r slength_app : kb_simpl.

(** The first [n] characters of a string, [substring 0 n s], are a prefix
    of it, of length [n] when the string is that long. *)
Lemma substring_prefix n s : ∃ q, s = substring 0 n s +s+ q.
Proof.
  revert n. induction s as [|c s IH]; intros [|n]; cbn; try (by eexists).
  destruct (IH n) as [q Hq]. exists q. by rewrite sapp_cons, <- Hq.
Qed.

Lemma substring_length n s : n ≤ String.length s → String.length (substring 0 n s) = n.
Proof.
  revert n. induction s as [|c s IH]; intros [|n] Hn; cbn in *; try lia. rewrite IH; lia.
Qed.
