(* ===== verification/Json.v ===== *)
(** * JavaScript values and literals

    The values [src/karabiner.js] builds ([json]), and the meaning of the two
    kinds of literal it is written in: object literals with spread properties
    ([obj_lit], e.g. [{...DEVICE_DEFAULTS, identifiers: {...}}]) and array
    literals with spread elements ([arr_lit], e.g. [[...fromTo(a, b), ...]]).
    An object is an association list in property-creation order.  Numbers are
    integers ([Z]): every number the program writes is a small non-negative
    integer (see [Document.v]), for which a JavaScript double is exact. *)

From S2P Require Import Prelude.

Unset Elimination Schemes.
Inductive json : Type :=
  | JNull
  | JBool (b : bool)
  | JNumber (n : Z)
  | JString (s : string)
  | JArray (l : list json)
  | JObject (o : list (string * json)).
Set Elimination Schemes.

Abbreviation obj := (list (string * json)).

(** ** Induction through the nested lists *)

Section json_ind.
Context (P : json → Prop)
  (Hnull : P JNull) (Hbool : ∀ b, P (JBool b)) (Hnum : ∀ n, P (JNumber n))
  (Hstr : ∀ s, P (JString s))
  (Harr : ∀ l, Forall P l → P (JArray l))
  (Hobj : ∀ o : obj, Forall (λ kv, P kv.2) o → P (JObject o)).

Fixpoint json_ind (j : json) : P j :=
  match j with
  | JNull => Hnull
  | JBool b => Hbool b
  | JNumber n => Hnum n
  | JString s => Hstr s
  | JArray l =>
      Harr l ((fix go (l : list json) : Forall P l :=
                 match l with
                 | [] => @List.Forall_nil _ _
                 | x :: r => @List.Forall_cons _ P x r (json_ind x) (go r)
                 end) l)
  | JObject o =>
      Hobj o ((fix go (o : obj) : Forall (λ kv, P kv.2) o :=
                 match o with
                 | [] => @List.Forall_nil _ _
                 | kv :: r => @List.Forall_cons _ (λ kv, P kv.2) kv r (json_ind kv.2) (go r)
                 end) o)
  end.
End json_ind.

(** ** Decidable equality *)

Fixpoint json_eqb (x y : json) : bool :=
  match x, y with
  | JNull, JNull => true
  | JBool a, JBool b => Bool.eqb a b
  | JNumber a, JNumber b => Z.eqb a b
  | JString a, JString b => String.eqb a b
  | JArray l1, JArray l2 =>
      (fix go (l1 l2 : list json) : bool :=
         match l1, l2 with
         | [], [] => true
         | a :: r1, b :: r2 => json_eqb a b && go r1 r2
         | _, _ => false
         end) l1 l2
  | JObject o1, JObject o2 =>
      (fix go (o1 o2 : obj) : bool :=
         match o1, o2 with
         | [], [] => true
         | (k1, a) :: r1, (k2, b) :: r2 => String.eqb k1 k2 && json_eqb a b && go r1 r2
         | _, _ => false
         end) o1 o2
  | _, _ => false
  end.



(** ** Object literals

    ECMA-262 PropertyDefinitionEvaluation, restricted to the two forms the
    program uses: a spread [...src] copies the own properties of [src] in
    order (CopyDataProperties), a field [k: v] creates one property; both go
    through CreateDataProperty ([assoc_set]), so a key that is already
    present keeps its position and takes the later value. *)

Inductive prop_def : Type :=
  | PSpread (src : obj)
  | PField (k : string) (v : json).

Definition copy_data (target src : obj) : obj :=
  fold_left (λ t kv, assoc_set t kv.1 kv.2) src target.

Definition prop_step (o : obj) (d : prop_def) : obj :=
  match d with
  | PSpread src => copy_data o src
  | PField k v => assoc_set o k v
  end.

Definition obj_lit (ds : list prop_def) : obj := fold_left prop_step ds [].

(** ** Array literals

    An array literal evaluates its elements in order; a spread element
    [...l] contributes every element of the array [l]. *)

Inductive arr_elem : Type :=
  | AElem (v : json)
  | ASpread (l : list json).

Definition arr_elem_items (e : arr_elem) : list json :=
  match e with AElem v => [v] | ASpread l => l end.

Definition arr_lit (es : list arr_elem) : list json := flat_map arr_elem_items es.

(** ** Object literals: key order and abstract meaning *)

Definition def_keys (d : prop_def) : list string :=
  match d with PSpread src => src.*1 | PField k _ => [k] end.

(** The map a property definition denotes: a spread is a right-biased
    union, a field an insertion. *)
Definition prop_denote (m : gmap string json) (d : prop_def) : gmap string json :=
  match d with
  | PSpread src => list_to_map src ∪ m
  | PField k v => <[k:=v]> m
  end.

Definition def_wf (d : prop_def) : Prop :=
  match d with PSpread src => assoc_wf src | PField _ _ => True end.

(** ** Property access

    [[[Get]]] on a value: [json_get v k] is [v[k]] for an object [v], and
    [get_path ks v] follows a chain of property names. *)

Definition json_get (v : json) (k : string) : option json :=
  match v with JObject o => assoc_get o k | _ => None end.

Fixpoint get_path (ks : list string) (v : json) : option json :=
  match ks with
  | [] => Some v
  | k :: ks' => match json_get v k with Some w => get_path ks' w | None => None end
  end.

(** Reading a field of a given kind. *)

Definition as_string (v : option json) : option string :=
  match v with Some (JString s) => Some s | _ => None end.

Definition as_number (v : option json) : option Z :=
  match v with Some (JNumber n) => Some n | _ => None end.

Definition as_bool (v : option json) : option bool :=
  match v with Some (JBool b) => Some b | _ => None end.

Definition as_array (v : option json) : list json :=
  match v with Some (JArray l) => l | _ => [] end.

(** ** Equality and laws *)

Lemma json_eqb_spec x y : json_eqb x y = true ↔ x = y.
Proof.
  revert y. induction x as [| b | n | s | l IH | o IH] using json_ind;
    intros [| b' | n' | s' | l' | o']; simpl; try (split; congruence).
  - rewrite Bool.eqb_true_iff. split; congruence.
  - rewrite Z.eqb_eq. split; congruence.
  - rewrite String.eqb_eq. split; congruence.
  - revert l'. induction IH as [|x l Hx _ IHl]; intros [|y l']; try (split; congruence).
    rewrite andb_true_iff, Hx, IHl. split; [intros [-> [=->]]|intros [=-> ->]]; done.
  - revert o'. induction IH as [|[k x] o Hx _ IHo]; intros [|[k' y] o']; try (split; congruence).
    simpl in Hx. rewrite !andb_true_iff, String.eqb_eq, Hx, IHo.
    split; [intros [[-> ->] [=->]]|intros [=-> -> ->]]; done.
Qed.

#[export] Instance json_eq_dec : EqDecision json := λ x y,
  match json_eqb x y as b return json_eqb x y = b → Decision (x = y) with
  | true => λ H, left (proj1 (json_eqb_spec x y) H)
  | false => λ H, right (λ E, diff_false_true (eq_trans (eq_sym H) (proj2 (json_eqb_spec x y) E)))
  end eq_refl.

(** ** Laws of CopyDataProperties *)

Lemma copy_data_wf t s : assoc_wf t → assoc_wf (copy_data t s).
Proof.
  revert t. induction s as [|[k v] s IH]; intros t Ht; simpl; auto with kb.
Qed.

Lemma copy_data_get t s k :
  assoc_wf s → assoc_get (copy_data t s) k = assoc_get s k ∪ assoc_get t k.
Proof.
  unfold assoc_wf. revert t. induction s as [|[k' v'] s IH]; intros t Hs.
  { simpl. by destruct (assoc_get t k). }
  rewrite fmap_cons in Hs. apply NoDup_cons in Hs as [Hk' Hs].
  change (copy_data t ((k', v') :: s)) with (copy_data (assoc_set t k' v') s).
  rewrite IH, assoc_get_set, assoc_get_cons by done.
  destruct (decide (k = k')) as [->|Hne].
  - rewrite !decide_True by done. rewrite (proj2 (assoc_get_None s k')) by done.
    by destruct (assoc_get t k').
  - by rewrite !decide_False by congruence.
Qed.

Lemma copy_data_keys t s :
  assoc_wf s → (copy_data t s).*1 = t.*1 ++ filter (λ k, k ∉ t.*1) s.*1.
Proof.
  unfold assoc_wf. revert t. induction s as [|[k v] s IH]; intros t Hs.
  { simpl. by rewrite app_nil_r. }
  rewrite fmap_cons in Hs |- *. apply NoDup_cons in Hs as [Hk Hs].
  simpl. rewrite IH, assoc_set_keys, filter_cons by done.
  case_decide as Ht; cbn [fst].
  - by rewrite decide_False by tauto.
  - rewrite decide_True by done. rewrite <- app_assoc. f_equal. simpl. f_equal.
    apply filter_ext_in. intros x Hx. rewrite elem_of_app, list_elem_of_singleton.
    assert (x ≠ k) by (intros ->; contradiction). tauto.
Qed.

Lemma copy_data_nil_l s : assoc_wf s → copy_data [] s = s.
Proof.
  intros Hs. apply assoc_ext; [by apply copy_data_wf, NoDup_nil|..].
  - rewrite copy_data_keys by done. simpl. apply filter_all_in. set_solver.
  - intros k. rewrite copy_data_get by done. simpl. by destruct (assoc_get s k).
Qed.

Lemma copy_data_keys_fold t s : (copy_data t s).*1 = fold_left add_key s.*1 t.*1.
Proof.
  revert t. induction s as [|[k v] s IH]; intros t; [done|].
  simpl. rewrite IH, assoc_set_keys. done.
Qed.

Lemma prop_step_keys o d : (prop_step o d).*1 = fold_left add_key (def_keys d) o.*1.
Proof. destruct d; simpl; [apply copy_data_keys_fold|apply assoc_set_keys]. Qed.

Lemma copy_data_to_map t s :
  assoc_wf s →
  (list_to_map (copy_data t s) : gmap string json) = list_to_map s ∪ list_to_map t.
Proof.
  intros Hs. apply map_eq. intros k.
  by rewrite fin_maps.lookup_union, !assoc_to_map_lookup, copy_data_get.
Qed.

Lemma prop_step_to_map o d :
  def_wf d → (list_to_map (prop_step o d) : gmap string json) = prop_denote (list_to_map o) d.
Proof. destruct d; simpl; [apply copy_data_to_map|intros _; apply assoc_set_to_map]. Qed.

Lemma prop_step_wf o d : assoc_wf o → assoc_wf (prop_step o d).
Proof. destruct d; simpl; [apply copy_data_wf|apply assoc_set_wf]. Qed.

#[export] Hint Resolve copy_data_wf : kb.

#[export] Instance def_wf_dec d : Decision (def_wf d).
Proof. destruct d; simpl; apply _. Defined.

Lemma fold_prop_step_wf ds o : assoc_wf o → assoc_wf (fold_left prop_step ds o).
Proof. revert o. induction ds as [|d ds IH]; intros o Ho; simpl; [done|]. by apply IH, prop_step_wf. Qed.

(** Whatever its spreads and fields, an object literal evaluates to an
    object in which no key occurs twice. *)
Lemma obj_lit_wf ds : assoc_wf (obj_lit ds).
Proof. apply fold_prop_step_wf, NoDup_nil_2. Qed.

Lemma fold_prop_step_keys ds o :
  (fold_left prop_step ds o).*1 = fold_left add_key (flat_map def_keys ds) o.*1.
Proof.
  revert o. induction ds as [|d ds IH]; intros o; [done|].
  simpl. by rewrite IH, fold_left_app, prop_step_keys.
Qed.

(** C12: Key order of an object literal (what [JSON.stringify] later prints):
    the keys are those of the spreads and fields in source order, each at
    the position of its first definition; later definitions of the same key
    do not move it. *)
Theorem obj_lit_keys ds : (obj_lit ds).*1 = fold_left add_key (flat_map def_keys ds) [].
Proof. apply fold_prop_step_keys. Qed.

Lemma fold_prop_step_to_map ds o :
  Forall def_wf ds →
  (list_to_map (fold_left prop_step ds o) : gmap string json)
  = fold_left prop_denote ds (list_to_map o).
Proof.
  revert o. induction ds as [|d ds IH]; intros o Hds; [done|].
  apply Forall_cons in Hds as [Hd Hds]. simpl. by rewrite IH, prop_step_to_map.
Qed.

(** C4: Refinement of object literals: forgetting the order, an object
    literal denotes the finite map obtained by folding its definitions, a
    spread being a union in which the later properties win and a field an
    insertion, provided every spread source is itself a well-formed object. *)
Theorem obj_lit_refines ds :
  Forall def_wf ds →
  (list_to_map (obj_lit ds) : gmap string json) = fold_left prop_denote ds ∅.
Proof. apply fold_prop_step_to_map. Qed.

(** ** Witnesses *)

Lemma obj_lit_refines_witness :
  Forall def_wf [PSpread [("ignore", JBool false); ("vendor_id", JNumber 1)];
                 PField "ignore" (JBool true)] ∧
  (list_to_map (obj_lit [PSpread [("ignore", JBool false); ("vendor_id", JNumber 1)];
                         PField "ignore" (JBool true)]) : gmap string json)
  = fold_left prop_denote [PSpread [("ignore", JBool false); ("vendor_id", JNumber 1)];
                           PField "ignore" (JBool true)] ∅.
Proof. split; [kb_decide|apply obj_lit_refines; kb_decide]. Defined.

