(* ===== verification/Combinators.v ===== *)
(** * The mapping combinators of [src/karabiner.js]

    [fromTo] (lines 7-18), [spaceFN] (lines 20-86) and [swap] (lines 88-90),
    translated literally: each object literal of the source is the
    association list of its fields in source order (a literal without
    spreads and without repeated keys evaluates to exactly that list), and
    [swap]'s array spread is [arr_lit].

    To state what a list of simple remappings does, [simple_remap] reads
    it the way section 3 of the spec says the consumer does: the first entry
    whose [from.key_code] is the pressed key decides its [to.key_code]; a key
    no entry mentions is left alone.  What the two entries of [spaceFN] do
    is stated in [Layer.v], against the runtime they are written for. *)

From S2P Require Import Prelude Json.

(** ** The combinators *)

Definition fromTo (from to : string) : list json :=
  [JObject [("from", JObject [("key_code", JString from)]);
            ("to", JObject [("key_code", JString to)])]].

Definition set_variable (name : string) (value : Z) : json :=
  JObject [("set_variable", JObject [("name", JString name); ("value", JNumber value)])].

Definition spaceFN (from to : string) : list json :=
  [JObject
     [("from",
       JObject
         [("modifiers", JObject [("optional", JArray [JString "any"])]);
          ("simultaneous",
           JArray [JObject [("key_code", JString "spacebar")];
                   JObject [("key_code", JString from)]]);
          ("simultaneous_options",
           JObject
             [("key_down_order", JString "strict");
              ("key_up_order", JString "strict_inverse");
              ("to_after_key_up", JArray [set_variable "SpaceFN" 0])])]);
      ("parameters",
       JObject [("basic.simultaneous_threshold_milliseconds", JNumber 500)]);
      ("to", JArray [set_variable "SpaceFN" 1; JObject [("key_code", JString to)]]);
      ("type", JString "basic")];
   JObject
     [("conditions",
       JArray [JObject [("name", JString "SpaceFN");
                        ("type", JString "variable_if");
                        ("value", JNumber 1)]]);
      ("from",
       JObject [("key_code", JString from);
                ("modifiers", JObject [("optional", JArray [JString "any"])])]);
      ("to", JArray [JObject [("key_code", JString to)]]);
      ("type", JString "basic")]].

Definition swap (a b : string) : list json :=
  arr_lit [ASpread (fromTo a b); ASpread (fromTo b a)].

(** ** Reading a list of simple remappings *)

Definition entry_from_key (e : json) : option string := as_string (get_path ["from"; "key_code"] e).

Definition entry_to_key (e : json) : option string := as_string (get_path ["to"; "key_code"] e).

Fixpoint simple_lookup (es : list json) (k : string) : option string :=
  match es with
  | [] => None
  | e :: es' =>
      match entry_from_key e with
      | Some k' => if String.eqb k k' then entry_to_key e else simple_lookup es' k
      | None => simple_lookup es' k
      end
  end.

Definition simple_remap (es : list json) (k : string) : string := default k (simple_lookup es k).

(** ** Laws of the reading *)

Lemma fromTo_lookup a b k :
  simple_lookup (fromTo a b) k = if decide (k = a) then Some b else None.
Proof. kb_cases. Qed.

#[export] Hint Rewrite fromTo_lookup : kb_simpl.

(** C14: [fromTo a b] remaps exactly the key [a], to [b]. *)
Theorem fromTo_remap a b k : simple_remap (fromTo a b) k = if decide (k = a) then b else k.
Proof. unfold simple_remap. rewrite fromTo_lookup. by case_decide. Qed.

(** C13: [swap a b] sends [a] to [b] and [b] to [a] and leaves every other
    key alone (when [a = b] it is the identity). *)
Theorem swap_remap a b k :
  simple_remap (swap a b) k = if decide (k = a) then b else if decide (k = b) then a else k.
Proof.
  unfold simple_remap, swap, arr_lit. kb_cases.
Qed.

