(* ===== verification/Devices.v ===== *)
(** * Device descriptors of [src/karabiner.js]

    [DEVICE_DEFAULTS] (lines 92-98) and [IDENTIFIER_DEFAULTS] (lines
    100-103) are plain literals; [APPLE_INTERNAL] (105-112), [REALFORCE]
    (114-127) and [YUBIKEY] (129-138) are object literals that spread the
    defaults and then override fields, evaluated with [obj_lit].  The
    property is the keyboard remapping the Realforce descriptor installs,
    through its spread defaults, its override and the [swap] and [fromTo]
    entries it is built from. *)

From S2P Require Import Prelude Json Combinators.

(** ** The descriptors *)

Definition DEVICE_DEFAULTS : obj :=
  [("disable_built_in_keyboard_if_exists", JBool false);
   ("fn_function_keys", JArray []);
   ("ignore", JBool false);
   ("manipulate_caps_lock_led", JBool true);
   ("simple_modifications", JArray [])].

Definition IDENTIFIER_DEFAULTS : obj :=
  [("is_keyboard", JBool true);
   ("is_pointing_device", JBool false)].

(** [identifiers: {...IDENTIFIER_DEFAULTS, product_id: p, vendor_id: v}] *)
Definition identifiers (product vendor : Z) : json :=
  JObject (obj_lit [PSpread IDENTIFIER_DEFAULTS;
                    PField "product_id" (JNumber product);
                    PField "vendor_id" (JNumber vendor)]).

Definition APPLE_INTERNAL : obj :=
  obj_lit [PSpread DEVICE_DEFAULTS;
           PField "identifiers" (identifiers 628 1452)].

Definition REALFORCE : obj :=
  obj_lit [PSpread DEVICE_DEFAULTS;
           PField "identifiers" (identifiers 273 2131);
           PField "simple_modifications"
             (JArray (arr_lit [ASpread (swap "left_command" "left_option");
                               ASpread (swap "right_command" "right_option");
                               ASpread (fromTo "application" "fn");
                               ASpread (fromTo "pause" "power")]))].

Definition YUBIKEY : obj :=
  obj_lit [PSpread DEVICE_DEFAULTS;
           PField "identifiers" (identifiers 1031 4176);
           PField "ignore" (JBool true);
           PField "manipulate_caps_lock_led" (JBool false)].

(** ** Reading a descriptor *)

Definition device_simple_mods (d : obj) : list json :=
  as_array (json_get (JObject d) "simple_modifications").

(** The key mapping the Realforce descriptor is meant to install: both
    command/option pairs swapped, [application] to [fn], [pause] to [power]. *)
Definition realforce_table : list (string * string) :=
  [("left_command", "left_option"); ("left_option", "left_command");
   ("right_command", "right_option"); ("right_option", "right_command");
   ("application", "fn"); ("pause", "power")].

(** ** Properties *)

(** C15: The Realforce keyboard's simple modifications remap every key as
    [realforce_table] says, and leave every key the table does not mention
    unchanged. *)
Theorem realforce_remap k :
  simple_remap (device_simple_mods REALFORCE) k = default k (assoc_get realforce_table k).
Proof. unfold simple_remap. kb_cases. Qed.

