(* ===== verification/Profiles.v ===== *)
(** * Profiles and rules of [src/karabiner.js]

    [PARAMETER_DEFAULTS] (lines 140-145), [VANILLA_PROFILE] (147-174) and
    [DEFAULT_PROFILE] (176-348).  [DEFAULT_PROFILE] spreads
    [VANILLA_PROFILE] and overrides five of its fields; its
    [complex_modifications] holds five rules, each defined here under its own
    name ([SPACEFN_RULE], [CAPS_RULE], [RETURN_RULE], [TAB_RULE],
    [SHIFT_RULE]) and written as in the source.  The [YUBIKEY] descriptor is
    listed in both profiles: the source shares one object, which is never
    mutated, so a value is a faithful model of it. *)

From S2P Require Import Prelude Json Combinators Devices.

(** ** Parameters *)

Definition PARAMETER_DEFAULTS : obj :=
  [("basic.simultaneous_threshold_milliseconds", JNumber 50);
   ("basic.to_delayed_action_delay_milliseconds", JNumber 500);
   ("basic.to_if_alone_timeout_milliseconds", JNumber 1000);
   ("basic.to_if_held_down_threshold_milliseconds", JNumber 500)].

(** ** The Vanilla profile *)

Definition VANILLA_FN_KEYS : list json :=
  arr_lit [ASpread (fromTo "f1" "display_brightness_decrement");
           ASpread (fromTo "f2" "display_brightness_increment");
           ASpread (fromTo "f3" "mission_control");
           ASpread (fromTo "f4" "launchpad");
           ASpread (fromTo "f5" "illumination_decrement");
           ASpread (fromTo "f6" "illumination_increment");
           ASpread (fromTo "f7" "rewind");
           ASpread (fromTo "f8" "play_or_pause");
           ASpread (fromTo "f9" "fastforward");
           ASpread (fromTo "f10" "mute");
           ASpread (fromTo "f11" "volume_decrement");
           ASpread (fromTo "f12" "volume_increment")].

Definition VANILLA_PROFILE : obj :=
  [("complex_modifications",
    JObject [("parameters", JObject PARAMETER_DEFAULTS); ("rules", JArray [])]);
   ("devices", JArray [JObject YUBIKEY]);
   ("fn_function_keys", JArray VANILLA_FN_KEYS);
   ("name", JString "Vanilla");
   ("selected", JBool false);
   ("simple_modifications", JArray []);
   ("virtual_hid_keyboard",
    JObject [("caps_lock_delay_milliseconds", JNumber 0);
             ("keyboard_type", JString "ansi")])].

(** ** The rules of the Default profile *)

Definition any_modifiers : json := JObject [("optional", JArray [JString "any"])].

Definition SPACEFN_RULE : json :=
  JObject
    [("description", JString "SpaceFN layer");
     ("manipulators",
      JArray (arr_lit [ASpread (spaceFN "b" "spacebar");
                       ASpread (spaceFN "h" "left_arrow");
                       ASpread (spaceFN "j" "down_arrow");
                       ASpread (spaceFN "k" "up_arrow");
                       ASpread (spaceFN "l" "right_arrow");
                       ASpread (spaceFN "1" "display_brightness_decrement");
                       ASpread (spaceFN "2" "display_brightness_increment");
                       ASpread (spaceFN "3" "mission_control");
                       ASpread (spaceFN "4" "launchpad");
                       ASpread (spaceFN "5" "illumination_decrement");
                       ASpread (spaceFN "6" "illumination_increment");
                       ASpread (spaceFN "7" "rewind");
                       ASpread (spaceFN "8" "play_or_pause");
                       ASpread (spaceFN "9" "fast_forward");
                       ASpread (spaceFN "0" "mute");
                       ASpread (spaceFN "-" "volume_decrement");
                       ASpread (spaceFN "=" "volume_increment");
                       ASpread (spaceFN "d" "PageDown");
                       ASpread (spaceFN "u" "PageUp")]))].

Definition CAPS_RULE : json :=
  JObject
    [("description", JString "Post Esc if Caps is tapped, Control if held");
     ("manipulators",
      JArray [JObject
                [("from", JObject [("key_code", JString "left_control");
                                   ("modifiers", any_modifiers)]);
                 ("to", JArray [JObject [("key_code", JString "left_control");
                                         ("lazy", JBool true)]]);
                 ("to_if_alone", JArray [JObject [("key_code", JString "escape")]]);
                 ("type", JString "basic")]])].

Definition RETURN_RULE : json :=
  JObject
    [("description",
      JString "Change Return to Control when used as modifier, Return when used alone");
     ("manipulators",
      JArray [JObject
                [("from", JObject [("key_code", JString "return_or_enter");
                                   ("modifiers", any_modifiers)]);
                 ("to", JArray [JObject [("key_code", JString "right_command");
                                         ("lazy", JBool true)]]);
                 ("to_if_alone", JArray [JObject [("key_code", JString "return_or_enter")]]);
                 ("to_if_held_down", JArray [JObject [("key_code", JString "return_or_enter")]]);
                 ("type", JString "basic")]])].

Definition TAB_RULE : json :=
  JObject
    [("description", JString "Change Tab to Option when used as modifier, Tab when used alone");
     ("manipulators",
      JArray [JObject
                [("from", JObject [("key_code", JString "tab");
                                   ("modifiers", any_modifiers)]);
                 ("to", JArray [JObject [("key_code", JString "left_option");
                                         ("lazy", JBool true)]]);
                 ("to_if_alone", JArray [JObject [("key_code", JString "tab")]]);
                 ("to_if_held_down", JArray [JObject [("key_code", JString "left_option")]]);
                 ("type", JString "basic")]])].

Definition SHIFT_RULE : json :=
  JObject
    [("description", JString "Left and Right Shift together toggle Caps Lock");
     ("manipulators",
      JArray [JObject
                [("from",
                  JObject [("modifiers", any_modifiers);
                           ("simultaneous",
                            JArray [JObject [("key_code", JString "left_shift")];
                                    JObject [("key_code", JString "right_shift")]]);
                           ("simultaneous_options",
                            JObject [("key_down_order", JString "insensitive");
                                     ("key_up_order", JString "insensitive")])]);
                 ("to", JArray [JObject [("key_code", JString "caps_lock")]]);
                 ("type", JString "basic")]])].

(** ** The Default profile *)

Definition DEFAULT_PARAMETERS : obj :=
  obj_lit [PSpread PARAMETER_DEFAULTS;
           PField "basic.to_if_alone_timeout_milliseconds" (JNumber 500)].

(** The [simple_modifications] literal of [DEFAULT_PROFILE] (lines
    330-347): Caps Lock becomes Control, Escape becomes Caps Lock. *)
Definition DEFAULT_SIMPLE_MODIFICATIONS : list json :=
  [JObject [("from", JObject [("key_code", JString "caps_lock")]);
            ("to", JObject [("key_code", JString "left_control")])];
   JObject [("from", JObject [("key_code", JString "escape")]);
            ("to", JObject [("key_code", JString "caps_lock")])]].

Definition DEFAULT_PROFILE : obj :=
  obj_lit
    [PSpread VANILLA_PROFILE;
     PField "complex_modifications"
       (JObject [("parameters", JObject DEFAULT_PARAMETERS);
                 ("rules", JArray [SPACEFN_RULE; CAPS_RULE; RETURN_RULE; TAB_RULE; SHIFT_RULE])]);
     PField "devices" (JArray [JObject YUBIKEY; JObject REALFORCE; JObject APPLE_INTERNAL]);
     PField "name" (JString "Default");
     PField "selected" (JBool true);
     PField "simple_modifications" (JArray DEFAULT_SIMPLE_MODIFICATIONS)].

(** ** Reading a profile *)

Definition profile_rules (p : obj) : list json :=
  as_array (get_path ["complex_modifications"; "rules"] (JObject p)).

Definition rule_manipulators (r : json) : list json := as_array (json_get r "manipulators").

(** The key codes a manipulator emits while its key is held ([to]). *)
Definition manip_to_keys (m : json) : list string :=
  omap (λ t, as_string (json_get t "key_code")) (as_array (json_get m "to")).

Definition simultaneous_threshold (m : json) : option json :=
  get_path ["parameters"; "basic.simultaneous_threshold_milliseconds"] m.

(** The fields [DEFAULT_PROFILE] writes after spreading [VANILLA_PROFILE]. *)
(** The simple modifications a profile lists. *)
Definition profile_simple_mods (p : obj) : list json := as_array (json_get (JObject p) "simple_modifications").

Definition DEFAULT_OVERRIDES : list string :=
  ["complex_modifications"; "devices"; "name"; "selected"; "simple_modifications"].

(** ** Properties *)

(** C16: [DEFAULT_PROFILE] inherits from [VANILLA_PROFILE] every field it
    does not override (its F-key row and its virtual keyboard), and keeps
    Vanilla's field order: the overrides replace values in place. *)
Theorem default_profile_inherits k :
  k ∉ DEFAULT_OVERRIDES →
  assoc_get DEFAULT_PROFILE k = assoc_get VANILLA_PROFILE k ∧
  DEFAULT_PROFILE.*1 = VANILLA_PROFILE.*1.
Proof.
  intros Hk. split; [|reflexivity].
  unfold DEFAULT_PROFILE, VANILLA_PROFILE. kb_cases; set_solver.
Qed.

(** C17: The Default profile's parameters are the defaults with only
    [basic.to_if_alone_timeout_milliseconds] lowered to 500, in the same
    order. *)
Theorem default_parameters k :
  assoc_get DEFAULT_PARAMETERS k =
    (if decide (k = "basic.to_if_alone_timeout_milliseconds") then Some (JNumber 500)
     else assoc_get PARAMETER_DEFAULTS k) ∧
  DEFAULT_PARAMETERS.*1 = PARAMETER_DEFAULTS.*1.
Proof. split; [unfold DEFAULT_PARAMETERS; kb_cases|reflexivity]. Qed.

(** Finding: every manipulator of the SpaceFN rule that carries
    parameters sets the chord window to 500 ms, while the profile's own
    [basic.simultaneous_threshold_milliseconds] is 50 ms, not the 1000 ms the
    comment on line 49 and spec section 4.3 call the default: the override
    widens the window tenfold rather than narrowing it. *)
Lemma spacefn_threshold_vs_profile :
  Forall (λ m, simultaneous_threshold m = None ∨ simultaneous_threshold m = Some (JNumber 500))
    (rule_manipulators SPACEFN_RULE) ∧
  List.length (filter (λ m, simultaneous_threshold m = Some (JNumber 500))
                 (rule_manipulators SPACEFN_RULE)) = 19 ∧
  assoc_get DEFAULT_PARAMETERS "basic.simultaneous_threshold_milliseconds" = Some (JNumber 50).
Proof. split; [kb_decide|split; reflexivity]. Qed.

(** Finding: the rule described as "Change Return to Control when used
    as modifier" emits [right_command] while Return is held, and the rule
    for Tab emits the [left_option] its description names. *)
Lemma return_rule_held_key :
  map manip_to_keys (rule_manipulators RETURN_RULE) = [["right_command"]] ∧
  map manip_to_keys (rule_manipulators TAB_RULE) = [["left_option"]].
Proof. split; reflexivity. Qed.

(** C11: Through the profile it is written in, the Default profile's
    simple modifications send [caps_lock] to [left_control] and [escape] to
    [caps_lock] and leave every other key alone; the Vanilla profile
    remaps no key. *)
Theorem default_simple_remap k :
  simple_remap (profile_simple_mods DEFAULT_PROFILE) k =
    (if decide (k = "caps_lock") then "left_control"
     else if decide (k = "escape") then "caps_lock" else k) ∧
  simple_remap (profile_simple_mods VANILLA_PROFILE) k = k.
Proof. unfold simple_remap. split; kb_cases. Qed.

(** ** Witnesses *)

Lemma default_profile_inherits_witness :
  ("fn_function_keys" ∉ DEFAULT_OVERRIDES) ∧
  assoc_get DEFAULT_PROFILE "fn_function_keys" = assoc_get VANILLA_PROFILE "fn_function_keys" ∧
  DEFAULT_PROFILE.*1 = VANILLA_PROFILE.*1.
Proof. split; [kb_decide|apply default_profile_inherits; kb_decide]. Defined.
