(* ===== verification/Stringify.v ===== *)
(** * [JSON.stringify(value, null, 2)]

    The call of [src/karabiner.js] lines 351-362, following ECMA-262
    (section "JSON.stringify"): the number [2] becomes the gap of two
    spaces ([gap_of_space]); [ser] is SerializeJSONProperty together with
    SerializeJSONObject and SerializeJSONArray for the values the program
    builds; [quote_json_string] is QuoteJSONString; integers are printed as
    Number::toString prints them.

    Two simplifications, each justified by a theorem of [Document.v]:
    - numbers are integers, printed in decimal; JavaScript prints an
      integer-valued double the same way below 10^21, and every number of
      the document is a small non-negative integer;
    - object keys are enumerated in creation order; JavaScript enumerates
      array-index keys (["0"], ["1"], ...) first, and the document has no
      such key.
    Strings are sequences of one-byte characters: a faithful reading of
    JavaScript's UTF-16 code units for ASCII, which is all the document
    contains. *)

From S2P Require Import Prelude Json.
From Stdlib Require Import Ascii DecimalString.

(** ** Characters *)

Definition char (n : nat) : string := String (ascii_of_nat n) EmptyString.

Definition nl : string := char 10.
Definition dquote : string := char 34.
Definition backslash : string := char 92.

Definition hex_digit (n : nat) : string :=
  if n <? 10 then char (48 + n) else char (87 + n).

(** UnicodeEscape: [\u] and four lowercase hexadecimal digits. *)
Definition unicode_escape (n : nat) : string :=
  backslash +s+ "u00" +s+ hex_digit (n / 16) +s+ hex_digit (n mod 16).

(** The escape QuoteJSONString writes for one code unit. *)
Definition escape_char (c : ascii) : string :=
  let n := nat_of_ascii c in
  if n =? 8 then backslash +s+ "b"
  else if n =? 9 then backslash +s+ "t"
  else if n =? 10 then backslash +s+ "n"
  else if n =? 12 then backslash +s+ "f"
  else if n =? 13 then backslash +s+ "r"
  else if n =? 34 then backslash +s+ dquote
  else if n =? 92 then backslash +s+ backslash
  else if n <? 32 then unicode_escape n
  else String c EmptyString.

Fixpoint escape_string (s : string) : string :=
  match s with
  | EmptyString => EmptyString
  | String c s' => escape_char c +s+ escape_string s'
  end.

Definition quote_json_string (s : string) : string := dquote +s+ escape_string s +s+ dquote.

(** ** Character classes *)

Fixpoint string_forall (p : ascii → bool) (s : string) : bool :=
  match s with
  | EmptyString => true
  | String c s' => p c && string_forall p s'
  end.

Definition is_digit (c : ascii) : bool :=
  (48 <=? nat_of_ascii c) && (nat_of_ascii c <=? 57).

(** Printable ASCII other than the quote and the backslash: the characters
    QuoteJSONString copies unchanged. *)
Definition plain_char (c : ascii) : bool :=
  (32 <=? nat_of_ascii c) && (nat_of_ascii c <=? 126) &&
  negb (nat_of_ascii c =? 34) && negb (nat_of_ascii c =? 92).

(** ** Numbers *)

Definition number_to_string (n : Z) : string := NilZero.string_of_int (Z.to_int n).

(** ** Serialization *)

Fixpoint join (sep : string) (parts : list string) : string :=
  match parts with
  | [] => EmptyString
  | [p] => p
  | p :: ps => p +s+ sep +s+ join sep ps
  end.

(** The non-empty case of SerializeJSONObject / SerializeJSONArray:
    [stepback] is the indentation of the enclosing value, [indent] that of
    the members. *)
Definition wrap (opening closing gap stepback indent : string) (partial : list string) : string :=
  match gap with
  | EmptyString => opening +s+ join "," partial +s+ closing
  | _ => opening +s+ nl +s+ indent +s+ join ("," +s+ nl +s+ indent) partial
           +s+ nl +s+ stepback +s+ closing
  end.

Definition member_sep (gap : string) : string :=
  match gap with EmptyString => ":" | _ => ": " end.

Fixpoint ser (gap indent : string) (v : json) : string :=
  match v with
  | JNull => "null"
  | JBool true => "true"
  | JBool false => "false"
  | JNumber n => number_to_string n
  | JString s => quote_json_string s
  | JArray [] => "[]"
  | JArray l => wrap "[" "]" gap indent (indent +s+ gap) (map (ser gap (indent +s+ gap)) l)
  | JObject [] => "{}"
  | JObject o =>
      wrap "{" "}" gap indent (indent +s+ gap)
        (map (λ kv, quote_json_string kv.1 +s+ member_sep gap +s+ ser gap (indent +s+ gap) kv.2) o)
  end.

Fixpoint spaces (n : nat) : string :=
  match n with O => EmptyString | S n' => String " " (spaces n') end.

(** The [space] argument of [JSON.stringify], a number: that many spaces,
    at most ten. *)
Definition gap_of_space (space : nat) : string := spaces (Nat.min 10 space).

Definition JSON_stringify (v : json) (space : nat) : string := ser (gap_of_space space) "" v.


(** ** Strings that need no escape *)

Lemma escape_char_plain c : plain_char c = true → escape_char c = String c EmptyString.
Proof.
  unfold plain_char, escape_char.
  rewrite !andb_true_iff, !negb_true_iff, !Nat.leb_le, !Nat.eqb_neq.
  intros [[[H32 H126] H34] H92].
  repeat rewrite (proj2 (Nat.eqb_neq _ _)) by lia.
  by rewrite (proj2 (Nat.ltb_ge _ _)) by lia.
Qed.

Lemma escape_string_plain s : string_forall plain_char s = true → escape_string s = s.
Proof.
  induction s as [|c s IH]; [done|]. cbn [string_forall escape_string].
  intros [Hc Hs]%andb_true_iff. by rewrite IH, escape_char_plain.
Qed.
