(* ===== verification/Parse.v ===== *)
(** * Reading the output back: [JSON.parse]

    A recursive-descent reader of JSON text, the side of Karabiner-Elements
    that reads the file (spec sections 1 and 6).  It skips the whitespace
    between tokens, reads integers, [null], [true], [false], strings with
    their escape sequences (a backslash followed by a quote, a backslash, a
    slash, [b], [f], [n], [r], [t], or [u] and four hexadecimal digits of a
    code below 256, one-byte characters being the model's strings),
    rejects a raw control character in a string as JSON.parse does, and
    builds objects with CreateDataProperty ([copy_data] from the empty
    object), so a repeated key keeps its first place and its last value.

    Recursion is bounded by a fuel argument.  Every token reader consumes
    input ([parse_value_len]), so fuel at least the length of the text
    gives the result of the unbounded recursion: more fuel changes nothing
    ([parse_value_fuel]); [parse_json] gives the length of the text.

    The round trip [stringify_roundtrip]: for every value whose objects
    have no repeated key ([json_ok]), whatever its strings, for any
    indentation width, the reader reads the printed text back to the
    value.  Its parts: numbers ([parse_number_roundtrip]), strings
    ([read_chars_escape], one character at a time), the layout [wrap]
    writes ([wrap_ws]), elements and members ([parse_elems_join],
    [parse_members_join]), then induction on the value ([ser_parse]) with
    the fuel bound [json_size_le_length]. *)

From S2P Require Import Prelude Json Stringify.
From Stdlib Require Import Ascii Decimal DecimalString DecimalZ DecimalPos.

(** ** Tokens *)

Definition is_ws (c : ascii) : bool :=
  let n := nat_of_ascii c in (n =? 32) || (n =? 10) || (n =? 9) || (n =? 13).

Fixpoint skip_ws (s : string) : string :=
  match s with
  | String c r => if is_ws c then skip_ws r else s
  | EmptyString => EmptyString
  end.

Fixpoint strip_prefix (p s : string) : option string :=
  match p, s with
  | EmptyString, _ => Some s
  | String a p', String b s' => if Ascii.eqb a b then strip_prefix p' s' else None
  | _, _ => None
  end.

Definition digit_of (n : nat) (u : uint) : uint :=
  match n with
  | 0 => D0 u | 1 => D1 u | 2 => D2 u | 3 => D3 u | 4 => D4 u
  | 5 => D5 u | 6 => D6 u | 7 => D7 u | 8 => D8 u | _ => D9 u
  end.

(** The longest run of decimal digits at the front of [s]. *)
Fixpoint read_digits (s : string) : uint * string :=
  match s with
  | String c r =>
      if is_digit c then let (u, r') := read_digits r in (digit_of (nat_of_ascii c - 48) u, r')
      else (Nil, s)
  | EmptyString => (Nil, EmptyString)
  end.

Definition number_of (neg : bool) (u : uint) (r : string) : option (json * string) :=
  match u with
  | Nil => None
  | _ => Some (JNumber (Z.of_int (if neg then Neg u else Pos u)), r)
  end.

Definition parse_number (s : string) : option (json * string) :=
  match s with
  | String c r =>
      if nat_of_ascii c =? 45 then let (u, r') := read_digits r in number_of true u r'
      else let (u, r') := read_digits s in number_of false u r'
  | EmptyString => None
  end.

Definition cons_char (c : ascii) (o : option (string * string)) : option (string * string) :=
  match o with Some (t, r) => Some (String c t, r) | None => None end.

(** The character a two-character escape [\e] stands for. *)
Definition simple_escape (e : ascii) : option ascii :=
  let n := nat_of_ascii e in
  if n =? 34 then Some (ascii_of_nat 34)
  else if n =? 92 then Some (ascii_of_nat 92)
  else if n =? 47 then Some (ascii_of_nat 47)
  else if n =? 98 then Some (ascii_of_nat 8)
  else if n =? 102 then Some (ascii_of_nat 12)
  else if n =? 110 then Some (ascii_of_nat 10)
  else if n =? 114 then Some (ascii_of_nat 13)
  else if n =? 116 then Some (ascii_of_nat 9)
  else None.

Definition hex_value (h : ascii) : option nat :=
  let n := nat_of_ascii h in
  if (48 <=? n) && (n <=? 57) then Some (n - 48)
  else if (97 <=? n) && (n <=? 102) then Some (n - 87)
  else if (65 <=? n) && (n <=? 70) then Some (n - 55)
  else None.

Definition hex4 (a b c d : ascii) : option nat :=
  match hex_value a, hex_value b, hex_value c, hex_value d with
  | Some a, Some b, Some c, Some d => Some (4096 * a + 256 * b + 16 * c + d)
  | _, _, _, _ => None
  end.

(** The digit [hex_digit] writes for [k]. *)
Definition hex_char (k : nat) : ascii := ascii_of_nat (if k <? 10 then 48 + k else 87 + k).

(** The characters of a string up to its closing quote, escapes decoded
    as JSON.parse decodes them; a raw control character is an error. *)
Fixpoint read_chars (s : string) : option (string * string) :=
  match s with
  | EmptyString => None
  | String c r =>
      if nat_of_ascii c =? 34 then Some (EmptyString, r)
      else if nat_of_ascii c =? 92 then
        match r with
        | String e r' =>
            match simple_escape e with
            | Some d => cons_char d (read_chars r')
            | None =>
                match r' with
                | String h1 (String h2 (String h3 (String h4 r''))) =>
                    if nat_of_ascii e =? 117 then
                      match hex4 h1 h2 h3 h4 with
                      | Some n => if n <? 256 then cons_char (ascii_of_nat n) (read_chars r'') else None
                      | None => None
                      end
                    else None
                | _ => None
                end
            end
        | EmptyString => None
        end
      else if nat_of_ascii c <? 32 then None
      else cons_char c (read_chars r)
  end.

Definition parse_string (s : string) : option (string * string) :=
  match s with
  | String c r => if nat_of_ascii c =? 34 then read_chars r else None
  | EmptyString => None
  end.

(** The next token is the character [c]: what follows it. *)
Definition expect (c : nat) (s : string) : option string :=
  match skip_ws s with
  | String d r => if nat_of_ascii d =? c then Some r else None
  | EmptyString => None
  end.

(** ** Values *)

(** The elements of an array after its first, [pv] reading one value. *)
Fixpoint parse_elems (pv : string → option (json * string)) (fuel : nat) (s : string)
    : option (list json * string) :=
  match fuel with
  | O => None
  | S f =>
      match pv s with
      | Some (v, r) =>
          match skip_ws r with
          | String c r' =>
              if nat_of_ascii c =? 44 then
                match parse_elems pv f r' with Some (vs, r'') => Some (v :: vs, r'') | None => None end
              else if nat_of_ascii c =? 93 then Some ([v], r')
              else None
          | EmptyString => None
          end
      | None => None
      end
  end.

Fixpoint parse_members (pv : string → option (json * string)) (fuel : nat) (s : string)
    : option (obj * string) :=
  match fuel with
  | O => None
  | S f =>
      match parse_string (skip_ws s) with
      | Some (k, r) =>
          match expect 58 r with
          | Some r1 =>
              match pv r1 with
              | Some (v, r2) =>
                  match skip_ws r2 with
                  | String c r3 =>
                      if nat_of_ascii c =? 44 then
                        match parse_members pv f r3 with
                        | Some (ms, r4) => Some ((k, v) :: ms, r4)
                        | None => None
                        end
                      else if nat_of_ascii c =? 125 then Some ([(k, v)], r3)
                      else None
                  | EmptyString => None
                  end
              | None => None
              end
          | None => None
          end
      | None => None
      end
  end.

Fixpoint parse_value (n : nat) (s : string) : option (json * string) :=
  match n with
  | O => None
  | S n' =>
      match skip_ws s with
      | EmptyString => None
      | String c r =>
          let k := nat_of_ascii c in
          if k =? 91 then
            match expect 93 r with
            | Some r' => Some (JArray [], r')
            | None =>
                match parse_elems (parse_value n') n' r with
                | Some (vs, r') => Some (JArray vs, r')
                | None => None
                end
            end
          else if k =? 123 then
            match expect 125 r with
            | Some r' => Some (JObject [], r')
            | None =>
                match parse_members (parse_value n') n' r with
                | Some (ms, r') => Some (JObject (copy_data [] ms), r')
                | None => None
                end
            end
          else if k =? 34 then
            match read_chars r with Some (t, r') => Some (JString t, r') | None => None end
          else if k =? 110 then option_map (λ r', (JNull, r')) (strip_prefix "ull" r)
          else if k =? 116 then option_map (λ r', (JBool true, r')) (strip_prefix "rue" r)
          else if k =? 102 then option_map (λ r', (JBool false, r')) (strip_prefix "alse" r)
          else parse_number (String c r)
      end
  end.

(** [JSON.parse(text)]: one value, then only whitespace. *)
Definition parse_json (s : string) : option json :=
  match parse_value (String.length s) s with
  | Some (v, r) => if (skip_ws r =? EmptyString)%string then Some v else None
  | None => None
  end.

(** ** The values the round trip covers *)

Fixpoint json_ok (v : json) : bool :=
  match v with
  | JArray l => forallb json_ok l
  | JObject o =>
      bool_decide (NoDup o.*1) && forallb (λ kv, json_ok kv.2) o
  | _ => true
  end.

Fixpoint json_size (v : json) : nat :=
  match v with
  | JArray l => S (sum_list_with json_size l)
  | JObject o => S (sum_list_with (λ kv, json_size kv.2) o)
  | _ => 1
  end.

(** Whitespace only. *)
Definition ws (w : string) : Prop := string_forall is_ws w = true.

(** What may follow a number: anything but a digit. *)
Definition delim (r : string) : Prop :=
  match r with String c _ => is_digit c = false | EmptyString => True end.

(** ** Tokens read back *)

Lemma skip_ws_app w s : ws w → skip_ws (w +s+ s) = skip_ws s.
Proof.
  unfold ws. induction w as [|c w IH]; [done|]. rewrite sapp_cons. cbn [string_forall skip_ws].
  intros [Hc Hw]%andb_true_iff. rewrite Hc. by apply IH.
Qed.

Lemma skip_ws_head c r : is_ws c = false → skip_ws (String c r) = String c r.
Proof. intros Hc. simpl. by rewrite Hc. Qed.

Lemma hex_digit_char k : hex_digit k = String (hex_char k) EmptyString.
Proof. unfold hex_digit, hex_char, char. by destruct (k <? 10). Qed.

Lemma hex_value_char k : k < 16 → hex_value (hex_char k) = Some k.
Proof. intros Hk. do 16 (destruct k as [|k]; [reflexivity|]). lia. Qed.

Lemma read_chars_unicode n r :
  n < 256 → read_chars (unicode_escape n +s+ r) = cons_char (ascii_of_nat n) (read_chars r).
Proof.
  intros Hn. unfold unicode_escape, backslash, char. rewrite !hex_digit_char, !sapp_assoc.
  rewrite !sapp_cons, !sapp_nil_l. cbn [read_chars].
  change (simple_escape "u") with (@None ascii). change (nat_of_ascii (ascii_of_nat 92) =? 34) with false.
  change (nat_of_ascii (ascii_of_nat 92) =? 92) with true. change (nat_of_ascii "u" =? 117) with true.
  cbv beta iota. unfold hex4. rewrite !hex_value_char by (apply Nat.mod_upper_bound || apply Nat.Div0.div_lt_upper_bound; lia).
  change (hex_value "0") with (Some 0). cbv beta iota.
  replace (4096 * 0 + 256 * 0 + 16 * (n / 16) + n mod 16) with n by (pose proof (Nat.div_mod n 16); lia).
  by rewrite (proj2 (Nat.ltb_lt _ _) Hn).
Qed.

Lemma read_chars_escape_char c r : read_chars (escape_char c +s+ r) = cons_char c (read_chars r).
Proof.
  pose proof (nat_ascii_bounded c) as Hn. rewrite <- (ascii_nat_embedding c).
  revert Hn. generalize (nat_of_ascii c) as n. intros n Hn.
  unfold escape_char. cbv zeta. rewrite nat_ascii_embedding by done.
  let special k := let E := fresh "E" in
    destruct (n =? k) eqn:E; [apply Nat.eqb_eq in E; subst n; reflexivity|] in
  special 8; special 9; special 10; special 12; special 13; special 34; special 92.
  destruct (n <? 32) eqn:Hlt; [by apply read_chars_unicode|].
  rewrite sapp_cons, sapp_nil_l. cbn [read_chars]. rewrite nat_ascii_embedding by done.
  rewrite Hlt. repeat match goal with H : (n =? _) = false |- _ => rewrite H end. done.
Qed.

Lemma read_chars_escape s r : read_chars (escape_string s +s+ dquote +s+ r) = Some (s, r).
Proof.
  induction s as [|c s IH]; [done|]. cbn [escape_string]. rewrite sapp_assoc, read_chars_escape_char, IH. done.
Qed.

Lemma parse_string_quote s r : parse_string (quote_json_string s +s+ r) = Some (s, r).
Proof. unfold quote_json_string. rewrite !sapp_assoc. simpl. apply read_chars_escape. Qed.

Lemma read_digits_uint u r : delim r → read_digits (NilEmpty.string_of_uint u +s+ r) = (u, r).
Proof.
  intros Hr. induction u; cbn [NilEmpty.string_of_uint]; rewrite ?sapp_cons;
    try (simpl; by rewrite IHu).
  destruct r as [|c r]; [done|]. simpl in Hr |- *. by rewrite Hr.
Qed.

Lemma nilzero_uint u : u ≠ Nil → NilZero.string_of_uint u = NilEmpty.string_of_uint u.
Proof. by destruct u. Qed.

(** A non-empty numeral starts with a digit. *)
Lemma uint_head u :
  u ≠ Nil → ∃ c rest, NilEmpty.string_of_uint u = String c rest ∧ is_digit c = true.
Proof. destruct u; [done|..]; intros _; eexists _, _; split; reflexivity. Qed.

Lemma digit_not_minus c : is_digit c = true → (nat_of_ascii c =? 45) = false.
Proof.
  unfold is_digit. rewrite andb_true_iff, !Nat.leb_le. intros [H1 H2]. apply Nat.eqb_neq. lia.
Qed.

Lemma parse_number_uint u r :
  u ≠ Nil → delim r → parse_number (NilEmpty.string_of_uint u +s+ r) = Some (JNumber (Z.of_int (Pos u)), r).
Proof.
  intros Hu Hr. destruct (uint_head u Hu) as (c & rest & Hs & Hc).
  rewrite Hs, sapp_cons. cbn [parse_number]. rewrite digit_not_minus by done.
  rewrite <- sapp_cons, <- Hs, read_digits_uint by done. by destruct u.
Qed.

Lemma parse_number_neg u r :
  u ≠ Nil → delim r →
  parse_number (String "-" (NilEmpty.string_of_uint u +s+ r)) = Some (JNumber (Z.of_int (Neg u)), r).
Proof. intros Hu Hr. cbn [parse_number]. rewrite read_digits_uint by done. by destruct u. Qed.

Lemma parse_number_roundtrip z r : delim r → parse_number (number_to_string z +s+ r) = Some (JNumber z, r).
Proof.
  intros Hr. rewrite <- (DecimalZ.of_to z) at 2. unfold number_to_string.
  destruct z as [|p|p]; cbn [Z.to_int NilZero.string_of_int];
    [|pose proof (Unsigned.to_uint_nonnil p) as Hu; rewrite nilzero_uint by done..].
  - by apply (parse_number_uint zero).
  - by apply parse_number_uint.
  - rewrite sapp_cons. by apply parse_number_neg.
Qed.

(** ** Whitespace *)

Lemma ws_nil : ws EmptyString.
Proof. done. Qed.

Lemma ws_app a b : ws a → ws b → ws (a +s+ b).
Proof.
  unfold ws. induction a as [|c a IH]; [done|]. rewrite sapp_cons. cbn [string_forall].
  rewrite !andb_true_iff. naive_solver.
Qed.

Lemma ws_nl : ws nl.
Proof. done. Qed.

Lemma ws_spaces n : ws (spaces n).
Proof. unfold ws. induction n; [done|]. by cbn [spaces string_forall]. Qed.

#[export] Hint Resolve ws_nil ws_app ws_nl ws_spaces : kb.

Lemma ws_not_digit c : is_ws c = true → is_digit c = false.
Proof.
  unfold is_ws, is_digit. rewrite !orb_true_iff, !Nat.eqb_eq.
  intros [[[H|H]|H]|H]; by rewrite H.
Qed.

Lemma delim_ws_app w c r : ws w → is_digit c = false → delim (w +s+ String c r).
Proof.
  unfold ws. destruct w as [|d w]; [done|]. rewrite sapp_cons. cbn [string_forall delim].
  intros [Hd _]%andb_true_iff _. by apply ws_not_digit.
Qed.

(** ** The first character of a printed value *)

(** The characters that may start a printed value: none is whitespace or a
    closing bracket. *)
Definition head_ok (c : ascii) : bool :=
  negb (is_ws c) && negb (nat_of_ascii c =? 93) && negb (nat_of_ascii c =? 125).

Lemma number_head z :
  ∃ c rest, number_to_string z = String c rest ∧ (is_digit c = true ∨ nat_of_ascii c = 45).
Proof.
  unfold number_to_string. destruct z as [|p|p]; cbn [Z.to_int NilZero.string_of_int].
  - eexists _, _. split; [reflexivity|by left].
  - pose proof (Unsigned.to_uint_nonnil p) as Hu. rewrite nilzero_uint by done.
    destruct (uint_head _ Hu) as (c & rest & -> & Hc). eauto.
  - eexists _, _. split; [reflexivity|by right].
Qed.

Lemma digit_head_ok c : is_digit c = true ∨ nat_of_ascii c = 45 → head_ok c = true.
Proof.
  unfold head_ok, is_ws, is_digit. rewrite andb_true_iff, !Nat.leb_le.
  intros [[H1 H2]|H]; [|by rewrite H].
  repeat rewrite (proj2 (Nat.eqb_neq _ _)) by lia. done.
Qed.

Lemma ser_head gap ind v : ∃ c rest, ser gap ind v = String c rest ∧ head_ok c = true.
Proof.
  destruct v as [| [] | z | s | [|v l] | [|kv o]]; cbn [ser];
    try (unfold wrap; destruct gap); try (eexists _, _; split; reflexivity).
  all: destruct (number_head z) as (c & rest & -> & Hc); eauto using digit_head_ok.
Qed.

Lemma wrap_ws o c gap sb ind parts :
  ws sb → ws ind →
  ∃ w0 w1 w2, ws w0 ∧ ws w1 ∧ ws w2 ∧
    wrap o c gap sb ind parts = o +s+ w0 +s+ join ("," +s+ w1) parts +s+ w2 +s+ c.
Proof.
  intros Hsb Hind. unfold wrap. destruct gap as [|g gap].
  - exists EmptyString, EmptyString, EmptyString. by rewrite !sapp_nil_l, sapp_nil_r.
  - exists (nl +s+ ind), (nl +s+ ind), (nl +s+ sb). split_and!; auto with kb.
Qed.

Lemma skip_ws_lit c r : is_ws c = false → skip_ws (String c EmptyString +s+ r) = String c r.
Proof. intros Hc. simpl. by rewrite Hc. Qed.

Lemma delim_lit c r : is_digit c = false → delim (String c EmptyString +s+ r).
Proof. done. Qed.

Lemma join_cons sep p ps : ps ≠ [] → join sep (p :: ps) = p +s+ sep +s+ join sep ps.
Proof. by destruct ps. Qed.

Lemma parse_elems_join pv pr (l : list json) w0 w1 w2 rest f :
  ws w0 → ws w1 → ws w2 → List.length l ≤ f → l ≠ [] →
  (∀ v w r, v ∈ l → ws w → delim r → pv (w +s+ pr v +s+ r) = Some (v, r)) →
  parse_elems pv f (w0 +s+ join ("," +s+ w1) (map pr l) +s+ w2 +s+ "]" +s+ rest) = Some (l, rest).
Proof.
  intros Hw0 Hw1 Hw2 Hf Hl Hpv. revert w0 f Hw0 Hf.
  induction l as [|v l IH]; intros w0 f Hw0 Hf; [done|].
  destruct f as [|f]; [simpl in Hf; lia|]. destruct l as [|v' l'].
  - cbn [map join parse_elems]. rewrite Hpv by first [done | by apply delim_ws_app | set_solver].
    rewrite skip_ws_app, skip_ws_lit by done. done.
  - change (map pr (v :: v' :: l')) with (pr v :: map pr (v' :: l')).
    rewrite join_cons by done. cbn [parse_elems]. rewrite !sapp_assoc.
    rewrite Hpv by first [done | by apply delim_lit | set_solver]. rewrite skip_ws_lit by done.
    change (nat_of_ascii "," =? 44) with true. cbv beta iota.
    rewrite IH; try done; [|by simpl in *; lia].
    intros kv0 w r Hin; apply Hpv; set_solver.
Qed.

Lemma skip_ws_quote s r : skip_ws (quote_json_string s +s+ r) = quote_json_string s +s+ r.
Proof. unfold quote_json_string. by rewrite !sapp_assoc. Qed.

Lemma parse_members_join pv pr (o : obj) ms w0 w1 w2 rest f :
  ws w0 → ws w1 → ws w2 → List.length o ≤ f → o ≠ [] → (ms = ":" ∨ ms = ": ") →
  (∀ kv w r, kv ∈ o → ws w → delim r → pv (w +s+ pr kv.2 +s+ r) = Some (kv.2, r)) →
  parse_members pv f
    (w0 +s+ join ("," +s+ w1) (map (λ kv, quote_json_string kv.1 +s+ ms +s+ pr kv.2) o)
        +s+ w2 +s+ "}" +s+ rest) = Some (o, rest).
Proof.
  intros Hw0 Hw1 Hw2 Hf Hl Hms Hpv. revert w0 f Hw0 Hf.
  induction o as [|[k v] o IH]; intros w0 f Hw0 Hf; [done|].
  assert (Hsep : ∃ w, ws w ∧ ∀ r, expect 58 (ms +s+ r) = Some (w +s+ r)).
  { destruct Hms as [-> | ->]; [exists EmptyString | exists " "]; by split. }
  destruct Hsep as (wm & Hwm & Hsep).
  destruct f as [|f]; [simpl in Hf; lia|]. destruct o as [|kv' o'].
  - cbn [map join parse_members fst snd]. rewrite !sapp_assoc, skip_ws_app, skip_ws_quote, parse_string_quote by done.
    rewrite Hsep, (Hpv (k, v)) by first [done | by apply delim_ws_app | set_solver].
    rewrite skip_ws_app, skip_ws_lit by done. done.
  - set (pm := λ kv : string * json, quote_json_string kv.1 +s+ ms +s+ pr kv.2).
    change (map pm ((k, v) :: kv' :: o')) with (pm (k, v) :: map pm (kv' :: o')).
    rewrite join_cons by done. cbn [parse_members]. subst pm. cbn [fst snd]. rewrite !sapp_assoc.
    rewrite skip_ws_app, skip_ws_quote, parse_string_quote, Hsep by done.
    rewrite (Hpv (k, v)) by first [done | by apply delim_lit | set_solver]. rewrite skip_ws_lit by done.
    change (nat_of_ascii "," =? 44) with true. cbv beta iota.
    rewrite IH; try done; [|by simpl in *; lia].
    intros kv0 w r Hin; apply Hpv; set_solver.
Qed.

(** ** Sizes *)

Lemma json_size_pos v : 1 ≤ json_size v.
Proof. destruct v; simpl; lia. Qed.

Lemma sum_list_with_in {A} (f : A → nat) l x : x ∈ l → f x ≤ sum_list_with f l.
Proof. induction 1; simpl; lia. Qed.

Lemma length_le_sum {A} (f : A → nat) l : (∀ x, 1 ≤ f x) → List.length l ≤ sum_list_with f l.
Proof. intros Hf. induction l as [|x l IH]; simpl; [lia|]. specialize (Hf x). lia. Qed.

(** ** The first token of a printed value *)

Lemma number_head_tests c :
  is_digit c = true ∨ nat_of_ascii c = 45 →
  is_ws c = false ∧ (nat_of_ascii c =? 91) = false ∧ (nat_of_ascii c =? 123) = false ∧
  (nat_of_ascii c =? 34) = false ∧ (nat_of_ascii c =? 110) = false ∧
  (nat_of_ascii c =? 116) = false ∧ (nat_of_ascii c =? 102) = false.
Proof.
  unfold is_ws, is_digit. rewrite andb_true_iff, !Nat.leb_le.
  intros [[H1 H2]|H]; [|by rewrite H].
  repeat rewrite (proj2 (Nat.eqb_neq _ _)) by lia. done.
Qed.

Lemma parse_value_number n w z r :
  ws w → delim r → parse_value (S n) (w +s+ number_to_string z +s+ r) = Some (JNumber z, r).
Proof.
  intros Hw Hr. cbn [parse_value]. rewrite skip_ws_app by done.
  destruct (number_head z) as (c & rest & Hs & Hc).
  destruct (number_head_tests c Hc) as (Hws & H91 & H123 & H34 & H110 & H116 & H102).
  rewrite Hs, sapp_cons, skip_ws_head by done. cbv zeta.
  rewrite H91, H123, H34, H110, H116, H102, <- sapp_cons, <- Hs.
  by apply parse_number_roundtrip.
Qed.

Lemma parse_value_string n w s r :
  ws w → parse_value (S n) (w +s+ quote_json_string s +s+ r) = Some (JString s, r).
Proof.
  intros Hw. cbn [parse_value]. rewrite skip_ws_app, skip_ws_quote by done.
  unfold quote_json_string. rewrite !sapp_assoc. unfold dquote at 1, char at 1.
  rewrite sapp_cons, sapp_nil_l. cbv zeta. cbn [nat_of_ascii ascii_of_nat].
  by rewrite read_chars_escape.
Qed.

(** A non-empty array or object is not read as the empty one. *)
Lemma expect_ser_None c gap ind v w x :
  c = 93 ∨ c = 125 → ws w → expect c (w +s+ ser gap ind v +s+ x) = None.
Proof.
  intros Hc Hw. unfold expect. rewrite skip_ws_app by done.
  destruct (ser_head gap ind v) as (d & rest & -> & Hd).
  unfold head_ok in Hd. rewrite !andb_true_iff, !negb_true_iff in Hd.
  destruct Hd as [[H1 H2] H3]. rewrite sapp_cons, skip_ws_head by done.
  by destruct Hc as [-> | ->]; [rewrite H2 | rewrite H3].
Qed.

Lemma expect_quote_None k x w : ws w → expect 125 (w +s+ quote_json_string k +s+ x) = None.
Proof. intros Hw. unfold expect. by rewrite skip_ws_app, skip_ws_quote by done. Qed.

Lemma join_map_head {A} sep (f : A → string) x l : ∃ t, join sep (map f (x :: l)) = f x +s+ t.
Proof.
  destruct l as [|y l].
  - exists EmptyString. by rewrite sapp_nil_r.
  - eexists. cbn [map]. by rewrite join_cons.
Qed.

Lemma json_ok_array l : json_ok (JArray l) = true → ∀ v, v ∈ l → json_ok v = true.
Proof. cbn [json_ok]. rewrite forallb_forall. intros H v Hv. apply H, list_elem_of_In, Hv. Qed.

Lemma json_ok_object o :
  json_ok (JObject o) = true →
  NoDup o.*1 ∧ ∀ kv, kv ∈ o → json_ok kv.2 = true.
Proof.
  cbn [json_ok]. rewrite andb_true_iff, bool_decide_eq_true, forallb_forall.
  intros [Hnd Hall]. split; [done|]. intros kv Hkv%list_elem_of_In. by apply Hall.
Qed.

Lemma member_sep_cases gap : member_sep gap = ":" ∨ member_sep gap = ": ".
Proof. destruct gap; [left|right]; done. Qed.

(** ** Every printed value reads back *)

Section roundtrip.
Context (gap : string) (Hgap : ws gap).

(** [v], printed at indentation [ind] after whitespace [w] and followed by
    [r], is read back as [v] with [r] left over. *)
Definition reads_back (v : json) : Prop :=
  ∀ ind w r n, ws ind → ws w → delim r → json_size v ≤ n →
    parse_value n (w +s+ ser gap ind v +s+ r) = Some (v, r).

Ltac open_value :=
  cbn [parse_value]; rewrite ?sapp_assoc, skip_ws_app, ?skip_ws_lit by done; cbv zeta.

Lemma reads_back_array l :
  Forall (λ v, json_ok v = true → reads_back v) l → json_ok (JArray l) = true → reads_back (JArray l).
Proof.
  intros IH Hok ind w r n Hind Hw Hr Hn.
  destruct n as [|n]; [simpl in Hn; lia|]. cbn [json_size] in Hn.
  destruct l as [|v l]; cbn [ser].
  - open_value. done.
  - destruct (wrap_ws "[" "]" gap ind (ind +s+ gap) (map (ser gap (ind +s+ gap)) (v :: l)))
      as (w0 & w1 & w2 & Hw0 & Hw1 & Hw2 & ->); auto with kb.
    open_value. change (nat_of_ascii "[" =? 91) with true. cbv beta iota.
    assert (expect 93 (w0 +s+ join ("," +s+ w1) (map (ser gap (ind +s+ gap)) (v :: l))
                          +s+ w2 +s+ "]" +s+ r) = None) as ->.
    { destruct (join_map_head ("," +s+ w1) (ser gap (ind +s+ gap)) v l) as [t ->].
      rewrite sapp_assoc. apply expect_ser_None; auto. }
    rewrite (parse_elems_join _ (ser gap (ind +s+ gap))); auto.
    + pose proof (length_le_sum json_size (v :: l) json_size_pos). lia.
    + intros v' w' r' Hv' Hw' Hr'. rewrite List.Forall_forall in IH.
      apply IH; eauto using json_ok_array with kb; [by apply list_elem_of_In|].
      pose proof (sum_list_with_in json_size _ _ Hv'). lia.
Qed.

Lemma reads_back_object o :
  Forall (λ kv, json_ok kv.2 = true → reads_back kv.2) o → json_ok (JObject o) = true →
  reads_back (JObject o).
Proof.
  intros IH Hok ind w r n Hind Hw Hr Hn. apply json_ok_object in Hok as (Hnd & Hvals).
  destruct n as [|n]; [simpl in Hn; lia|]. cbn [json_size] in Hn.
  destruct o as [|[k v] o]; cbn [ser].
  - open_value. done.
  - set (pm := λ kv : string * json,
           quote_json_string kv.1 +s+ member_sep gap +s+ ser gap (ind +s+ gap) kv.2).
    destruct (wrap_ws "{" "}" gap ind (ind +s+ gap) (map pm ((k, v) :: o)))
      as (w0 & w1 & w2 & Hw0 & Hw1 & Hw2 & ->); auto with kb.
    open_value. change (nat_of_ascii "{" =? 91) with false. change (nat_of_ascii "{" =? 123) with true.
    cbv beta iota.
    assert (expect 125 (w0 +s+ join ("," +s+ w1) (map pm ((k, v) :: o)) +s+ w2 +s+ "}" +s+ r)
              = None) as ->.
    { destruct (join_map_head ("," +s+ w1) pm (k, v) o) as [t ->]. subst pm. cbn [fst snd].
      rewrite !sapp_assoc. by apply expect_quote_None. }
    subst pm. rewrite (parse_members_join _ (ser gap (ind +s+ gap))); auto using member_sep_cases.
    + by rewrite copy_data_nil_l.
    + pose proof (length_le_sum (λ kv, json_size kv.2) ((k, v) :: o) (λ kv, json_size_pos kv.2)). lia.
    + intros kv w' r' Hkv Hw' Hr'. rewrite List.Forall_forall in IH.
      apply IH; auto with kb; [by apply list_elem_of_In|].
      pose proof (sum_list_with_in (λ kv, json_size kv.2) _ _ Hkv). cbn beta in *. lia.
Qed.

Lemma ser_parse v : json_ok v = true → reads_back v.
Proof.
  induction v as [| [] | z | s | l IH | o IH] using json_ind; intros Hok ind w r n Hind Hw Hr Hn;
    destruct n as [|n]; try (simpl in Hn; lia).
  - open_value. done.
  - open_value. done.
  - open_value. done.
  - by apply parse_value_number.
  - by apply parse_value_string.
  - by apply reads_back_array.
  - by apply reads_back_object.
Qed.

End roundtrip.

(** ** The fuel: one step per character *)

Lemma sum_list_with_le {A} (f g : A → nat) l : (∀ x, x ∈ l → f x ≤ g x) → sum_list_with f l ≤ sum_list_with g l.
Proof.
  induction l as [|x l IH]; intros H; simpl; [lia|].
  assert (f x ≤ g x) by (apply H; set_solver). assert (sum_list_with f l ≤ sum_list_with g l).
  { apply IH. intros y Hy. apply H. set_solver. }
  lia.
Qed.

Lemma sum_list_with_map {A B} (f : B → nat) (h : A → B) l :
  sum_list_with f (map h l) = sum_list_with (λ x, f (h x)) l.
Proof. induction l; simpl; lia. Qed.

Lemma join_length sep parts : sum_list_with String.length parts ≤ String.length (join sep parts).
Proof.
  induction parts as [|p [|q ps] IH]; [simpl; lia|simpl; lia|].
  rewrite join_cons by done. rewrite !slength_app. cbn [sum_list_with] in *. lia.
Qed.

Lemma wrap_length o c gap sb ind parts :
  String.length o + sum_list_with String.length parts + String.length c
    ≤ String.length (wrap o c gap sb ind parts).
Proof.
  pose proof (join_length "," parts). pose proof (join_length ("," +s+ nl +s+ ind) parts).
  unfold wrap. destruct gap; rewrite !slength_app; lia.
Qed.

Lemma json_size_le_length gap ind v : json_size v ≤ String.length (ser gap ind v).
Proof.
  revert ind. induction v as [| [] | z | s | [|v l] IH | [|kv o] IH] using json_ind; intros ind;
    try (destruct (ser_head gap ind (JNumber z)) as (c & rest & Hs & _));
    try (destruct (ser_head gap ind (JString s)) as (c & rest & Hs & _));
    cbn [json_size ser] in *; try rewrite Hs; cbn [String.length]; try lia; try (simpl; lia).
  - etransitivity; [|apply wrap_length]. rewrite sum_list_with_map. cbn [String.length].
    enough (sum_list_with json_size (v :: l) ≤ sum_list_with (λ x, String.length (ser gap (ind +s+ gap) x)) (v :: l))
      by lia.
    apply sum_list_with_le. intros x Hx. rewrite List.Forall_forall in IH. apply IH, list_elem_of_In, Hx.
  - etransitivity; [|apply wrap_length]. rewrite sum_list_with_map. cbn [String.length].
    enough (sum_list_with (λ kv, json_size kv.2) (kv :: o) ≤
            sum_list_with (λ kv, String.length (ser gap (ind +s+ gap) kv.2)) (kv :: o)).
    { enough (sum_list_with (λ kv, String.length (ser gap (ind +s+ gap) kv.2)) (kv :: o) ≤
              sum_list_with (λ kv0, String.length (quote_json_string kv0.1 +s+ member_sep gap +s+
                                                   ser gap (ind +s+ gap) kv0.2)) (kv :: o)) by lia.
      apply sum_list_with_le. intros x _. rewrite !slength_app. lia. }
    apply sum_list_with_le. intros x Hx. rewrite List.Forall_forall in IH. apply IH, list_elem_of_In, Hx.
Qed.

Lemma ws_delim w : ws w → delim w.
Proof. destruct w as [|c w]; [done|]. cbn. intros [Hc _]%andb_true_iff. by apply ws_not_digit. Qed.

(** The whole text: a printed value followed by whitespace [w], read with
    fuel the length of the text. *)
Lemma parse_value_top gap v w :
  ws gap → ws w → json_ok v = true →
  parse_value (String.length (ser gap "" v +s+ w)) (ser gap "" v +s+ w) = Some (v, w).
Proof.
  intros Hg Hw Hok.
  pose proof (ser_parse gap Hg v Hok "" "" w (String.length (ser gap "" v +s+ w))) as H.
  rewrite sapp_nil_l in H. apply H; [done|done|by apply ws_delim|].
  rewrite slength_app. pose proof (json_size_le_length gap "" v). lia.
Qed.

Lemma parse_json_ser gap v w : ws gap → ws w → json_ok v = true → parse_json (ser gap "" v +s+ w) = Some v.
Proof.
  intros Hg Hw Hok. unfold parse_json. rewrite parse_value_top by done.
  by rewrite <- (sapp_nil_r w), skip_ws_app by done.
Qed.

(** ** The fuel: each step consumes input *)

Lemma skip_ws_len s : String.length (skip_ws s) ≤ String.length s.
Proof. induction s as [|c s IH]; cbn; [lia|]. destruct (is_ws c); cbn; lia. Qed.

Lemma read_digits_len s : String.length (read_digits s).2 ≤ String.length s.
Proof.
  induction s as [|c s IH]; cbn; [lia|]. destruct (is_digit c); cbn; [|lia].
  destruct (read_digits s) as [u r]. cbn in *. lia.
Qed.

Lemma number_of_len neg u r v r' : number_of neg u r = Some (v, r') → r' = r.
Proof. destruct u; cbn; congruence. Qed.

Lemma parse_number_len s v r : parse_number s = Some (v, r) → String.length r < String.length s.
Proof.
  destruct s as [|c s]; cbn; [done|]. pose proof (read_digits_len s) as Hs.
  destruct (nat_of_ascii c =? 45).
  - destruct (read_digits s) as [u r'] eqn:E. intros ->%number_of_len. cbn in *. lia.
  - destruct (is_digit c); [|cbn; congruence].
    destruct (read_digits s) as [u r'] eqn:E. cbn in *. intros ->%number_of_len. cbn in *. lia.
Qed.

Lemma cons_char_Some d o t r : cons_char d o = Some (t, r) → ∃ t', o = Some (t', r).
Proof. destruct o as [[t' r']|]; cbn; [intros [= _ ->]; eauto|done]. Qed.

Lemma read_chars_len s t r : read_chars s = Some (t, r) → String.length r < String.length s.
Proof.
  revert t. induction s as [s IH] using (induction_ltof1 _ String.length). unfold ltof in IH.
  intros t. destruct s as [|c s1]; cbn [read_chars]; [done|].
  destruct (nat_of_ascii c =? 34); [intros [= _ <-]; cbn; lia|].
  destruct (nat_of_ascii c =? 92).
  - destruct s1 as [|e s2]; [done|]. destruct (simple_escape e).
    + intros (t' & Ht)%cons_char_Some. apply IH in Ht; cbn in *; lia.
    + destruct s2 as [|h1 [|h2 [|h3 [|h4 s3]]]]; try done.
      destruct (nat_of_ascii e =? 117), (hex4 h1 h2 h3 h4) as [m|]; try done.
      destruct (m <? 256); [|done]. intros (t' & Ht)%cons_char_Some. apply IH in Ht; cbn in *; lia.
  - destruct (nat_of_ascii c <? 32); [done|].
    intros (t' & Ht)%cons_char_Some. apply IH in Ht; cbn in *; lia.
Qed.

Lemma strip_prefix_len p s r : strip_prefix p s = Some r → String.length r ≤ String.length s.
Proof.
  revert s. induction p as [|a p IH]; intros s; cbn; [intros [= ->]; lia|].
  destruct s as [|b s]; [done|]. destruct (Ascii.eqb a b); [|done]. intros ?%IH. cbn. lia.
Qed.

Lemma expect_len c s r : expect c s = Some r → String.length r < String.length s.
Proof.
  unfold expect. pose proof (skip_ws_len s).
  destruct (skip_ws s) as [|d r']; [done|]. destruct (nat_of_ascii d =? c); [|done].
  intros [= <-]. cbn in *. lia.
Qed.

Lemma parse_string_len s k r : parse_string s = Some (k, r) → String.length r < String.length s.
Proof.
  destruct s as [|c s]; cbn; [done|]. destruct (nat_of_ascii c =? 34); [|done].
  intros ?%read_chars_len. lia.
Qed.

Lemma parse_elems_len pv f s vs r :
  (∀ t v r, pv t = Some (v, r) → String.length r < String.length t) →
  parse_elems pv f s = Some (vs, r) → String.length r < String.length s.
Proof.
  intros Hpv. revert s vs. induction f as [|f IH]; intros s vs; cbn; [done|].
  destruct (pv s) as [[v r1]|] eqn:E; [|done]. apply Hpv in E. pose proof (skip_ws_len r1).
  destruct (skip_ws r1) as [|c r2]; [done|]. cbn in *.
  destruct (nat_of_ascii c =? 44).
  - destruct (parse_elems pv f r2) as [[vs' r3]|] eqn:E2; [|done]. intros [= _ <-]. apply IH in E2. lia.
  - destruct (nat_of_ascii c =? 93); [|done]. intros [= _ <-]. lia.
Qed.

Lemma parse_members_len pv f s ms r :
  (∀ t v r, pv t = Some (v, r) → String.length r < String.length t) →
  parse_members pv f s = Some (ms, r) → String.length r < String.length s.
Proof.
  intros Hpv. revert s ms. induction f as [|f IH]; intros s ms; cbn; [done|].
  pose proof (skip_ws_len s).
  destruct (parse_string (skip_ws s)) as [[k r0]|] eqn:E0; [|done]. apply parse_string_len in E0.
  destruct (expect 58 r0) as [r1|] eqn:E1; [|done]. apply expect_len in E1.
  destruct (pv r1) as [[v r2]|] eqn:E2; [|done]. apply Hpv in E2. pose proof (skip_ws_len r2).
  destruct (skip_ws r2) as [|c r3]; [done|]. cbn in *.
  destruct (nat_of_ascii c =? 44).
  - destruct (parse_members pv f r3) as [[ms' r4]|] eqn:E4; [|done]. intros [= _ <-]. apply IH in E4. lia.
  - destruct (nat_of_ascii c =? 125); [|done]. intros [= _ <-]. lia.
Qed.

Lemma strip_literal_len p s (x : json) v r :
  option_map (λ r', (x, r')) (strip_prefix p s) = Some (v, r) → String.length r ≤ String.length s.
Proof. destruct (strip_prefix p s) as [r'|] eqn:E; [|done]. intros [= _ <-]. by apply strip_prefix_len in E. Qed.

Lemma parse_value_len n s v r : parse_value n s = Some (v, r) → String.length r < String.length s.
Proof.
  revert s v r. induction n as [|n IH]; intros s v r; cbn [parse_value]; [done|].
  pose proof (skip_ws_len s). destruct (skip_ws s) as [|c s']; [done|]. cbn in H. cbv zeta.
  destruct (nat_of_ascii c =? 91).
  { destruct (expect 93 s') as [r'|] eqn:E; [intros [= _ <-]; apply expect_len in E; lia|].
    destruct (parse_elems _ _ _) as [[vs r']|] eqn:E'; [|done].
    intros [= _ <-]. apply parse_elems_len in E'; [lia|exact IH]. }
  destruct (nat_of_ascii c =? 123).
  { destruct (expect 125 s') as [r'|] eqn:E; [intros [= _ <-]; apply expect_len in E; lia|].
    destruct (parse_members _ _ _) as [[ms r']|] eqn:E'; [|done].
    intros [= _ <-]. apply parse_members_len in E'; [lia|exact IH]. }
  destruct (nat_of_ascii c =? 34).
  { destruct (read_chars s') as [[t r']|] eqn:E; [|done]. intros [= _ <-]. apply read_chars_len in E. lia. }
  destruct (nat_of_ascii c =? 110); [intros ?%strip_literal_len; lia|].
  destruct (nat_of_ascii c =? 116); [intros ?%strip_literal_len; lia|].
  destruct (nat_of_ascii c =? 102); [intros ?%strip_literal_len; lia|].
  intros ?%parse_number_len. cbn in *. lia.
Qed.

(** ** More fuel changes nothing *)

Section fuel.
Context (pv1 pv2 : string → option (json * string)) (L : nat).
Hypothesis Hagree : ∀ t, String.length t ≤ L → pv1 t = pv2 t.
Hypothesis Hconsume : ∀ t v r, pv2 t = Some (v, r) → String.length r < String.length t.

Lemma pv_empty : pv2 EmptyString = None.
Proof. destruct (pv2 EmptyString) as [[v r]|] eqn:E; [apply Hconsume in E; cbn in E; lia|done]. Qed.

Lemma parse_elems_fuel f1 f2 s :
  String.length s ≤ L → String.length s ≤ f2 → f2 ≤ f1 → parse_elems pv1 f1 s = parse_elems pv2 f2 s.
Proof.
  revert f1 s. induction f2 as [|f2 IH]; intros f1 s HL Hf Hle.
  - destruct s; [|cbn in Hf; lia]. destruct f1; [done|]. cbn. rewrite Hagree, pv_empty by (cbn; lia). done.
  - destruct f1 as [|f1]; [lia|]. cbn. rewrite Hagree by done.
    destruct (pv2 s) as [[v r]|] eqn:E; [|done]. apply Hconsume in E. pose proof (skip_ws_len r).
    destruct (skip_ws r) as [|c r']; [done|]. cbn in *. rewrite (IH f1 r') by lia. done.
Qed.

Lemma parse_members_fuel f1 f2 s :
  String.length s ≤ L → String.length s ≤ f2 → f2 ≤ f1 → parse_members pv1 f1 s = parse_members pv2 f2 s.
Proof.
  revert f1 s. induction f2 as [|f2 IH]; intros f1 s HL Hf Hle.
  - destruct s; [|cbn in Hf; lia]. destruct f1; done.
  - destruct f1 as [|f1]; [lia|]. cbn. pose proof (skip_ws_len s).
    destruct (parse_string (skip_ws s)) as [[k r0]|] eqn:E0; [|done]. apply parse_string_len in E0.
    destruct (expect 58 r0) as [r1|] eqn:E1; [|done]. apply expect_len in E1.
    rewrite Hagree by lia. destruct (pv2 r1) as [[v r2]|] eqn:E2; [|done].
    apply Hconsume in E2. pose proof (skip_ws_len r2).
    destruct (skip_ws r2) as [|c r3]; [done|]. cbn in *. rewrite (IH f1 r3) by lia. done.
Qed.
End fuel.

(** Fuel at least the length of the text is enough: any more fuel gives
    the same result, so [parse_json] computes what the unbounded recursive
    descent computes. *)
Lemma parse_value_fuel n m s :
  String.length s ≤ n → n ≤ m → parse_value m s = parse_value n s.
Proof.
  revert m s. induction n as [|n IH]; intros m s Hs Hm.
  - destruct s; [|cbn in Hs; lia]. by destruct m.
  - destruct m as [|m]; [lia|]. cbn [parse_value]. pose proof (skip_ws_len s).
    destruct (skip_ws s) as [|c r]; [done|]. cbn in *.
    assert (Hag : ∀ t, String.length t ≤ n → parse_value m t = parse_value n t) by (intros; apply IH; lia).
    rewrite (parse_elems_fuel _ _ n Hag (parse_value_len n) m n r),
            (parse_members_fuel _ _ n Hag (parse_value_len n) m n r) by lia.
    done.
Qed.

(** ** Properties *)

(** C5: Round trip: for every value whose objects have no repeated key,
    whatever characters its strings hold, [JSON.parse] reads the text [JSON.stringify(v, null, space)] followed by
    a newline back to [v], for every indentation width [space]. *)
Theorem stringify_roundtrip v space :
  json_ok v = true → parse_json (JSON_stringify v space +s+ nl) = Some v.
Proof.
  intros Hok. apply parse_json_ser; [apply ws_spaces|apply ws_nl|done].
Qed.





(** ** Witnesses *)

Lemma stringify_roundtrip_witness :
  let v := JObject [("from", JObject [("key_code", JString "escape")]);
                    ("to", JArray [JNumber 500; JNumber (-3); JBool false; JNull; JArray []]);
                    ("say " +s+ dquote +s+ "hi" +s+ dquote,
                     JString (backslash +s+ "x" +s+ nl +s+ char 7 +s+ char 200));
                    ("rules", JObject [])] in
  json_ok v = true ∧ parse_json (JSON_stringify v 2 +s+ nl) = Some v.
Proof. intros v. split; [vm_compute; reflexivity|apply stringify_roundtrip; vm_compute; reflexivity]. Defined.


