(* ===== verification/Truncate.v ===== *)
(** * The reader on a truncated text

    What a consumer reads when the writer stopped early (spec sections 5
    and 7: the only side effect is one write to standard output, which a
    closed pipe can cut short).  [strict_prefix p t]: [p] is [t] with at
    least one character missing at the end.

    The reader never mistakes a cut printed value for another value: a
    strict prefix of a printed array or object, after any whitespace, is
    rejected ([truncated_composite]); a strict prefix of a printed scalar
    is rejected or read up to its very end (a numeral cut after a digit is
    a shorter numeral, [truncated_value]), which an enclosing array or
    object then rejects, since its closing bracket is missing.  So the
    text of a printed array or object followed by a newline reads, for
    every prefix, as the value when the whole printed value is there and
    as an error otherwise ([parse_json_prefix]). *)

From S2P Require Import Prelude Json Stringify Parse.
From Stdlib Require Import Ascii Decimal DecimalString DecimalPos.

Definition strict_prefix (p t : string) : Prop := ∃ q, q ≠ EmptyString ∧ t = p +s+ q.

(** The reader stopped at the end of its input, or failed. *)
Definition ends_early (o : option (json * string)) : Prop :=
  o = None ∨ ∃ v, o = Some (v, EmptyString).

(** ** Prefixes of a concatenation *)

Lemma sapp_split p q a b :
  p +s+ q = a +s+ b → (∃ m, a = p +s+ m ∧ q = m +s+ b) ∨ (∃ m, p = a +s+ m ∧ b = m +s+ q).
Proof.
  revert a. induction p as [|c p IH]; intros a H.
  - left. exists a. by rewrite sapp_nil_l in *.
  - destruct a as [|d a].
    + right. exists (String c p). by rewrite sapp_nil_l in *.
    + rewrite !sapp_cons in H. injection H as -> H.
      destruct (IH a H) as [(m & -> & ->)|(m & -> & ->)]; [left|right]; exists m; by rewrite sapp_cons.
Qed.

Lemma strict_prefix_app p a b :
  strict_prefix p (a +s+ b) → strict_prefix p a ∨ ∃ m, p = a +s+ m ∧ strict_prefix m b.
Proof.
  intros (q & Hq & Hpq). symmetry in Hpq. destruct (sapp_split _ _ _ _ Hpq) as [(m & -> & ->)|(m & -> & ->)].
  - destruct m as [|c m].
    + right. exists EmptyString. rewrite sapp_nil_l in Hq. split; [by rewrite !sapp_nil_r|].
      exists b. by rewrite sapp_nil_l.
    + left. exists (String c m). done.
  - right. exists m. split; [done|]. by exists q.
Qed.

Lemma strict_prefix_nil p : ¬ strict_prefix p EmptyString.
Proof. intros (q & Hq & H). destruct p, q; done. Qed.

Lemma strict_prefix_cons p c t :
  strict_prefix p (String c t) → p = EmptyString ∨ ∃ p', p = String c p' ∧ strict_prefix p' t.
Proof.
  intros (q & Hq & H). destruct p as [|d p]; [by left|right].
  rewrite sapp_cons in H. injection H as -> ->. exists p. split; [done|]. by exists q.
Qed.

Lemma strict_prefix_length p t : strict_prefix p t → String.length p < String.length t.
Proof. intros (q & Hq & ->). rewrite slength_app. destruct q; [done|]. cbn. lia. Qed.

(** Strict prefixes of a concrete string, one case each. *)
Ltac prefix_cases H :=
  repeat match type of H with
  | strict_prefix _ EmptyString => destruct (strict_prefix_nil _ H)
  | strict_prefix _ (String _ _) =>
      let p' := fresh "p" in let H' := fresh "H" in
      destruct (strict_prefix_cons _ _ _ H) as [->|(p' & -> & H')]; clear H; [|rename H' into H]
  end.

(** ** Whitespace and delimiters *)

Lemma strict_prefix_app3 p a b c :
  strict_prefix p (a +s+ b +s+ c) →
  strict_prefix p a ∨ (∃ m, p = a +s+ m ∧ strict_prefix m b) ∨ (∃ m, p = a +s+ b +s+ m ∧ strict_prefix m c).
Proof.
  intros [Ha|(m & -> & [Hb|(m' & -> & Hc)]%strict_prefix_app)]%strict_prefix_app; eauto.
Qed.

Lemma string_forall_app_inv f a b : string_forall f (a +s+ b) = true → string_forall f a = true ∧ string_forall f b = true.
Proof.
  induction a as [|c a IH]; [done|]. rewrite sapp_cons. cbn [string_forall].
  rewrite !andb_true_iff. intros [Hc (Ha & Hb)%IH]. done.
Qed.

Lemma string_forall_strict_prefix f p t : string_forall f t = true → strict_prefix p t → string_forall f p = true.
Proof. intros Ht (q & _ & ->). by apply string_forall_app_inv in Ht as [? _]. Qed.

Lemma ws_app_inv a b : ws (a +s+ b) → ws a ∧ ws b.
Proof. apply string_forall_app_inv. Qed.

Lemma ws_strict_prefix p w : ws w → strict_prefix p w → ws p.
Proof. apply string_forall_strict_prefix. Qed.

Lemma skip_ws_ws w : ws w → skip_ws w = EmptyString.
Proof. intros Hw. rewrite <- (sapp_nil_r w), skip_ws_app by done. done. Qed.

(** Only the first character matters to [delim]. *)
Lemma delim_strict_prefix m t : strict_prefix m t → delim t → delim m.
Proof. destruct t as [|c t]; [by intros ?%strict_prefix_nil|]. intros [->|(m' & -> & _)]%strict_prefix_cons; done. Qed.

(** Whatever is cut from whitespace followed by one character is whitespace. *)
Lemma ws_closing_prefix m w c : ws w → strict_prefix m (w +s+ String c EmptyString) → ws m.
Proof.
  intros Hw [Hm|(m' & -> & Hm')]%strict_prefix_app; [by eapply ws_strict_prefix|].
  prefix_cases Hm'. by rewrite sapp_nil_r.
Qed.

(** ** Tokens *)

Lemma parse_value_ws n w : ws w → parse_value n w = None.
Proof. intros Hw. destruct n; [done|]. cbn [parse_value]. by rewrite skip_ws_ws. Qed.

Lemma expect_ws c w : ws w → expect c w = None.
Proof. intros Hw. unfold expect. by rewrite skip_ws_ws. Qed.

(** A strict prefix of an escape is not a character. *)
Lemma read_chars_escape_char_prefix c p : strict_prefix p (escape_char c) → read_chars p = None.
Proof.
  pose proof (nat_ascii_bounded c) as Hn. rewrite <- (ascii_nat_embedding c).
  revert Hn. generalize (nat_of_ascii c) as n. intros n Hn.
  unfold escape_char. cbv zeta. rewrite nat_ascii_embedding by done.
  let special k := let E := fresh "E" in
    destruct (n =? k) eqn:E;
      [intros Hp; cbv [String.append backslash dquote char] in Hp; prefix_cases Hp; reflexivity|] in
  special 8; special 9; special 10; special 12; special 13; special 34; special 92.
  destruct (n <? 32) eqn:Hlt; intros Hp.
  - unfold unicode_escape in Hp. rewrite !hex_digit_char in Hp. cbv [String.append backslash char] in Hp.
    prefix_cases Hp; reflexivity.
  - prefix_cases Hp. reflexivity.
Qed.

Lemma read_chars_prefix s p : strict_prefix p (escape_string s +s+ dquote) → read_chars p = None.
Proof.
  revert p. induction s as [|c s IH]; intros p Hp; cbn [escape_string] in Hp.
  - rewrite sapp_nil_l in Hp. unfold dquote, char in Hp. prefix_cases Hp. done.
  - rewrite sapp_assoc in Hp. destruct (strict_prefix_app _ _ _ Hp) as [Hc|(m & -> & Hm)].
    + by apply read_chars_escape_char_prefix in Hc.
    + by rewrite read_chars_escape_char, IH.
Qed.

Lemma parse_string_prefix s p : strict_prefix p (quote_json_string s) → parse_string p = None.
Proof.
  unfold quote_json_string, dquote at 1, char at 1. rewrite sapp_cons, sapp_nil_l.
  intros Hp. prefix_cases Hp; [done|]. cbn [parse_string]. by apply (read_chars_prefix s).
Qed.

(** ** Numerals and literals *)

Lemma digits_uint u : string_forall is_digit (NilEmpty.string_of_uint u) = true.
Proof. induction u; cbn; rewrite ?IHu; reflexivity. Qed.

Lemma read_digits_all s : string_forall is_digit s = true → (read_digits s).2 = EmptyString.
Proof.
  induction s as [|c s IH]; [done|]. cbn. intros [-> Hs]%andb_true_iff.
  specialize (IH Hs). destruct (read_digits s). cbn in *. done.
Qed.

(** A numeral is digits, or a minus sign and digits. *)
Lemma number_digits z :
  ∃ t, (number_to_string z = t ∨ number_to_string z = String "-" t) ∧ string_forall is_digit t = true.
Proof.
  unfold number_to_string. destruct z as [|q|q]; cbn [Z.to_int NilZero.string_of_int].
  - exists "0". split; [by left|done].
  - pose proof (Unsigned.to_uint_nonnil q) as Hu. rewrite nilzero_uint by done.
    eexists. split; [by left|apply digits_uint].
  - pose proof (Unsigned.to_uint_nonnil q) as Hu. rewrite nilzero_uint by done.
    eexists. split; [by right|apply digits_uint].
Qed.

Lemma number_of_ends neg u : ends_early (number_of neg u EmptyString).
Proof. destruct u; [by left|..]; right; eexists; reflexivity. Qed.

Lemma read_digits_ends neg s :
  string_forall is_digit s = true → ends_early (let (u, r') := read_digits s in number_of neg u r').
Proof.
  intros Hs. pose proof (read_digits_all s Hs) as Hr. destruct (read_digits s) as [u r].
  cbn in Hr. subst r. apply number_of_ends.
Qed.

(** A numeral cut short is rejected (nothing, or a bare minus sign) or is a
    shorter numeral read to the end of the text. *)
Lemma parse_value_number_prefix n w z p :
  ws w → strict_prefix p (number_to_string z) → ends_early (parse_value n (w +s+ p)).
Proof.
  intros Hw Hp. destruct n as [|n]; [by left|].
  destruct p as [|c p]; [left; apply parse_value_ws; by rewrite sapp_nil_r|].
  assert (Hhead : is_digit c = true ∨ nat_of_ascii c = 45 →
            parse_value (S n) (w +s+ String c p) = parse_number (String c p)).
  { intros Hc. destruct (number_head_tests c Hc) as (Hws & H91 & H123 & H34 & H110 & H116 & H102).
    cbn [parse_value]. rewrite skip_ws_app, skip_ws_head by done. cbv zeta.
    by rewrite H91, H123, H34, H110, H116, H102. }
  destruct (number_digits z) as (t & [Ht|Ht] & Hd); rewrite Ht in Hp.
  - pose proof (string_forall_strict_prefix _ _ _ Hd Hp) as Hdp. cbn in Hdp.
    apply andb_true_iff in Hdp as [Hc Hdp]. rewrite Hhead by auto. cbn [parse_number].
    rewrite digit_not_minus by done. apply read_digits_ends. cbn. by rewrite Hc, Hdp.
  - destruct (strict_prefix_cons _ _ _ Hp) as [?|(p' & [= -> ->] & Hp')]; [done|].
    rewrite Hhead by auto. apply read_digits_ends. by apply (string_forall_strict_prefix _ _ t).
Qed.

Lemma parse_value_literal_prefix n w p l :
  ws w → l = "null" ∨ l = "true" ∨ l = "false" → strict_prefix p l → parse_value n (w +s+ p) = None.
Proof.
  intros Hw Hl Hp. destruct n as [|n]; [done|].
  destruct Hl as [Hl|[Hl|Hl]]; subst l; prefix_cases Hp; cbn [parse_value]; rewrite skip_ws_app by done; reflexivity.
Qed.

(** ** Elements and members cut short *)

Section cut_lists.
Context (pv : string → option (json * string)).
Hypothesis Hpv_ws : ∀ w, ws w → pv w = None.

(** A value read to the end of the text leaves no separator or bracket. *)
Local Ltac value_at_end H := by destruct H as [->|(? & ->)].

Lemma parse_elems_prefix pr (l : list json) w0 w1 w2 p f :
  ws w0 → ws w1 → ws w2 → l ≠ [] →
  (∀ v w r, v ∈ l → ws w → delim r → pv (w +s+ pr v +s+ r) = Some (v, r)) →
  (∀ v w p, v ∈ l → ws w → strict_prefix p (pr v) → ends_early (pv (w +s+ p))) →
  strict_prefix p (w0 +s+ join ("," +s+ w1) (map pr l) +s+ w2 +s+ "]") →
  parse_elems pv f p = None.
Proof.
  intros Hw0 Hw1 Hw2 Hl Hfull Hcut. revert w0 f p Hw0.
  induction l as [|v l IH]; intros w0 f p Hw0 Hp; [done|]. destruct f as [|f]; [done|].
  assert (Hv : v ∈ v :: l) by set_solver.
  destruct l as [|v' l'].
  - cbn [map join] in Hp. destruct (strict_prefix_app3 _ _ _ _ Hp) as [Hp'|[(m & -> & Hm)|(m & -> & Hm)]].
    + cbn. rewrite Hpv_ws by by eapply ws_strict_prefix. done.
    + cbn [parse_elems]. value_at_end (Hcut v w0 m Hv Hw0 Hm).
    + cbn [parse_elems]. rewrite Hfull by (done || by eapply delim_strict_prefix, delim_ws_app).
      by rewrite skip_ws_ws by (by apply (ws_closing_prefix m w2 "]")).
  - change (map pr (v :: v' :: l')) with (pr v :: map pr (v' :: l')) in Hp.
    rewrite join_cons, !sapp_assoc in Hp by done.
    destruct (strict_prefix_app3 _ _ _ _ Hp) as [Hp'|[(m & -> & Hm)|(m & -> & Hm)]].
    + cbn. rewrite Hpv_ws by by eapply ws_strict_prefix. done.
    + cbn [parse_elems]. value_at_end (Hcut v w0 m Hv Hw0 Hm).
    + cbn [parse_elems]. rewrite Hfull by (done || by eapply delim_strict_prefix).
      destruct (strict_prefix_cons _ _ _ Hm) as [->|(m' & -> & Hm')]; [done|].
      rewrite skip_ws_head by done. change (nat_of_ascii "," =? 44) with true. cbv beta iota.
      enough (parse_elems pv f m' = None) as -> by done.
      apply (IH ltac:(done)) with (w0 := w1);
        [intros; apply Hfull; set_solver|intros u ???; apply (Hcut u); [set_solver|done..]|done|done].
Qed.

(** What the member separator leaves, cut or whole. *)
Lemma member_sep_prefix ms m :
  ms = ":" ∨ ms = ": " → strict_prefix m ms → expect 58 m = None ∨ expect 58 m = Some EmptyString.
Proof. intros [->| ->] Hm; prefix_cases Hm; [left|left|right]; reflexivity. Qed.

Lemma member_sep_expect ms : ms = ":" ∨ ms = ": " → ∃ w, ws w ∧ ∀ r, expect 58 (ms +s+ r) = Some (w +s+ r).
Proof. intros [-> | ->]; [exists EmptyString | exists " "]; by split. Qed.

Lemma parse_string_cut w0 k m : ws w0 → strict_prefix m (quote_json_string k) → parse_string (skip_ws (w0 +s+ m)) = None.
Proof.
  intros Hw0 Hm. rewrite skip_ws_app by done. unfold quote_json_string, dquote at 1, char at 1 in Hm.
  rewrite sapp_cons, sapp_nil_l in Hm. destruct (strict_prefix_cons _ _ _ Hm) as [->|(m' & -> & _)]; [done|].
  rewrite skip_ws_head by done. apply (parse_string_prefix k). by unfold quote_json_string, dquote at 1, char at 1.
Qed.

Lemma parse_members_prefix pr (o : obj) ms w0 w1 w2 p f :
  ws w0 → ws w1 → ws w2 → o ≠ [] → ms = ":" ∨ ms = ": " →
  (∀ kv w r, kv ∈ o → ws w → delim r → pv (w +s+ pr kv.2 +s+ r) = Some (kv.2, r)) →
  (∀ kv w p, kv ∈ o → ws w → strict_prefix p (pr kv.2) → ends_early (pv (w +s+ p))) →
  strict_prefix p (w0 +s+ join ("," +s+ w1) (map (λ kv, quote_json_string kv.1 +s+ ms +s+ pr kv.2) o)
                      +s+ w2 +s+ "}") →
  parse_members pv f p = None.
Proof.
  intros Hw0 Hw1 Hw2 Ho Hms Hfull Hcut. revert w0 f p Hw0.
  destruct (member_sep_expect ms Hms) as (wm & Hwm & Hsep).
  induction o as [|[k v] o IH]; intros w0 f p Hw0 Hp; [done|]. destruct f as [|f]; [done|].
  assert (Hkv : (k, v) ∈ (k, v) :: o) by set_solver.
  set (pm := λ kv : string * json, quote_json_string kv.1 +s+ ms +s+ pr kv.2) in Hp.
  assert (Htext : ∃ rest, w0 +s+ join ("," +s+ w1) (map pm ((k, v) :: o)) +s+ w2 +s+ "}"
                          = w0 +s+ quote_json_string k +s+ ms +s+ pr v +s+ rest ∧
                          (o = [] → rest = w2 +s+ "}") ∧
                          (o ≠ [] → rest = "," +s+ w1 +s+ join ("," +s+ w1) (map pm o) +s+ w2 +s+ "}")).
  { destruct o as [|kv' o'].
    - exists (w2 +s+ "}"). subst pm. cbn [map join fst snd]. rewrite !sapp_assoc. done.
    - eexists. change (map pm ((k, v) :: kv' :: o')) with (pm (k, v) :: map pm (kv' :: o')).
      rewrite join_cons by done. subst pm. cbn [fst snd]. rewrite !sapp_assoc. split; [reflexivity|done]. }
  destruct Htext as (rest & Ht & Hnil & Hcons). rewrite Ht in Hp. clear Ht.
  cbn [parse_members].
  destruct (strict_prefix_app _ _ _ Hp) as [Hp'|(m1 & -> & Hm1)].
  { rewrite skip_ws_ws by by eapply ws_strict_prefix. done. }
  destruct (strict_prefix_app _ _ _ Hm1) as [Hk|(m2 & -> & Hm2)]; [by rewrite (parse_string_cut _ k)|].
  rewrite skip_ws_app, skip_ws_quote, parse_string_quote by done.
  destruct (strict_prefix_app _ _ _ Hm2) as [Hs|(m3 & -> & Hm3)].
  { by destruct (member_sep_prefix ms m2 Hms Hs) as [-> | ->]; [|rewrite Hpv_ws by done]. }
  rewrite Hsep. destruct (strict_prefix_app _ _ _ Hm3) as [Hv|(m4 & -> & Hm4)].
  { value_at_end (Hcut (k, v) wm m3 Hkv Hwm Hv). }
  assert (Hrest : delim rest) by (destruct o; [rewrite Hnil by done; by apply delim_ws_app|by rewrite Hcons]).
  rewrite (Hfull (k, v)) by (done || by eapply delim_strict_prefix).
  destruct o as [|kv' o'].
  { rewrite Hnil in Hm4 by done. by rewrite skip_ws_ws by (by apply (ws_closing_prefix m4 w2 "}")). }
  rewrite Hcons in Hm4 by done.
  destruct (strict_prefix_cons _ _ _ Hm4) as [->|(m' & -> & Hm')]; [done|].
  rewrite skip_ws_head by done. change (nat_of_ascii "," =? 44) with true. cbv beta iota.
  enough (parse_members pv f m' = None) as -> by done.
  apply (IH ltac:(done)) with (w0 := w1);
    [intros; apply Hfull; set_solver|intros u ???; apply (Hcut u); [set_solver|done..]|done|done].
Qed.

End cut_lists.

(** A printed array or object is never read as the empty one, however
    much of it is there. *)
Lemma expect_cut_None c w0 d t p :
  ws w0 → is_ws d = false → (nat_of_ascii d =? c) = false → strict_prefix p (w0 +s+ String d t) →
  expect c p = None.
Proof.
  intros Hw0 Hd Hc [Hp|(m & -> & Hm)]%strict_prefix_app; [by apply expect_ws, (ws_strict_prefix _ w0)|].
  destruct (strict_prefix_cons _ _ _ Hm) as [->|(m' & -> & _)]; [apply expect_ws; by rewrite sapp_nil_r|].
  unfold expect. by rewrite skip_ws_app, skip_ws_head, Hc by done.
Qed.

(** ** Every printed value cut short *)

Section truncated.
Context (gap : string) (Hgap : ws gap).

(** [v], printed at indentation [ind] and cut short, after whitespace [w]:
    rejected, or read to the very end of the text. *)
Definition cut_early (v : json) : Prop :=
  ∀ ind w p n, ws ind → ws w → strict_prefix p (ser gap ind v) → json_size v ≤ n →
    ends_early (parse_value n (w +s+ p)).

(** ... and for arrays and objects, rejected. *)
Definition cut_rejected (v : json) : Prop :=
  ∀ ind w p n, ws ind → ws w → strict_prefix p (ser gap ind v) → json_size v ≤ n →
    parse_value n (w +s+ p) = None.

Local Ltac open_bracket :=
  cbn [parse_value]; rewrite skip_ws_app, skip_ws_head by done; cbv zeta.

Lemma truncated_array l :
  Forall (λ v, json_ok v = true → cut_early v) l → json_ok (JArray l) = true → cut_rejected (JArray l).
Proof.
  intros IH Hok ind w p n Hind Hw Hp Hn. destruct n as [|n]; [done|]. cbn [json_size] in Hn.
  destruct l as [|v l]; cbn [ser] in Hp.
  { prefix_cases Hp; [apply parse_value_ws; by rewrite sapp_nil_r|].
    cbn [parse_value]. rewrite skip_ws_app by done. destruct n; reflexivity. }
  destruct (wrap_ws "[" "]" gap ind (ind +s+ gap) (map (ser gap (ind +s+ gap)) (v :: l)))
    as (w0 & w1 & w2 & Hw0 & Hw1 & Hw2 & Hwrap); auto with kb.
  rewrite Hwrap in Hp. clear Hwrap.
  destruct (strict_prefix_cons _ _ _ Hp) as [->|(p' & -> & Hp')]; [apply parse_value_ws; by rewrite sapp_nil_r|].
  open_bracket. change (nat_of_ascii "[" =? 91) with true. cbv beta iota.
  destruct (join_map_head ("," +s+ w1) (ser gap (ind +s+ gap)) v l) as [t Ht].
  destruct (ser_head gap (ind +s+ gap) v) as (d & rest & Hs & Hd).
  unfold head_ok in Hd. rewrite !andb_true_iff, !negb_true_iff in Hd. destruct Hd as [[Hd1 Hd2] _].
  rewrite (expect_cut_None 93 w0 d (rest +s+ t +s+ w2 +s+ "]") p'); [|done..|].
  2:{ rewrite Ht, Hs, !sapp_assoc, sapp_cons in Hp'. exact Hp'. }
  rewrite (parse_elems_prefix (parse_value n) (parse_value_ws n) (ser gap (ind +s+ gap)) (v :: l) w0 w1 w2);
    [done|done|done|done|done| | |done].
  - intros v' w' r' Hv' Hw' Hr'. apply ser_parse; eauto using json_ok_array with kb.
    pose proof (sum_list_with_in json_size _ _ Hv'). lia.
  - intros v' w' p'' Hv' Hw' Hp''. rewrite List.Forall_forall in IH.
    assert (Hc : cut_early v') by (apply IH; [by apply list_elem_of_In|eauto using json_ok_array]).
    apply (Hc (ind +s+ gap) w' p'' n); auto with kb. pose proof (sum_list_with_in json_size _ _ Hv'). lia.
Qed.

Lemma truncated_object o :
  Forall (λ kv, json_ok kv.2 = true → cut_early kv.2) o → json_ok (JObject o) = true →
  cut_rejected (JObject o).
Proof.
  intros IH Hok ind w p n Hind Hw Hp Hn. apply json_ok_object in Hok as (_ & Hvals).
  destruct n as [|n]; [done|]. cbn [json_size] in Hn.
  destruct o as [|[k v] o]; cbn [ser] in Hp.
  { prefix_cases Hp; [apply parse_value_ws; by rewrite sapp_nil_r|].
    cbn [parse_value]. rewrite skip_ws_app by done. destruct n; reflexivity. }
  set (pm := λ kv : string * json, quote_json_string kv.1 +s+ member_sep gap +s+ ser gap (ind +s+ gap) kv.2) in Hp.
  destruct (wrap_ws "{" "}" gap ind (ind +s+ gap) (map pm ((k, v) :: o)))
    as (w0 & w1 & w2 & Hw0 & Hw1 & Hw2 & Hwrap); auto with kb.
  rewrite Hwrap in Hp. clear Hwrap.
  destruct (strict_prefix_cons _ _ _ Hp) as [->|(p' & -> & Hp')]; [apply parse_value_ws; by rewrite sapp_nil_r|].
  open_bracket. change (nat_of_ascii "{" =? 91) with false. change (nat_of_ascii "{" =? 123) with true.
  cbv beta iota.
  destruct (join_map_head ("," +s+ w1) pm (k, v) o) as [t Ht].
  rewrite (expect_cut_None 125 w0 (ascii_of_nat 34)
             (escape_string k +s+ dquote +s+ member_sep gap +s+ ser gap (ind +s+ gap) v +s+ t +s+ w2 +s+ "}") p');
    [|done..|].
  2:{ rewrite Ht in Hp'. subst pm. cbn [fst snd] in Hp'. unfold quote_json_string, dquote at 1, char at 1 in Hp'.
      rewrite !sapp_assoc, sapp_cons, sapp_nil_l in Hp'. exact Hp'. }
  subst pm.
  rewrite (parse_members_prefix (parse_value n) (parse_value_ws n) (ser gap (ind +s+ gap)) ((k, v) :: o)
             (member_sep gap) w0 w1 w2);
    [done|done|done|done|done|apply member_sep_cases| | |done].
  - intros kv w' r' Hkv Hw' Hr'. apply ser_parse; auto with kb.
    pose proof (sum_list_with_in (λ kv, json_size kv.2) _ _ Hkv). cbn beta in *. lia.
  - intros kv w' p'' Hkv Hw' Hp''. rewrite List.Forall_forall in IH.
    assert (Hc : cut_early kv.2) by (apply IH; [by apply list_elem_of_In|auto]).
    apply (Hc (ind +s+ gap) w' p'' n); auto with kb.
    pose proof (sum_list_with_in (λ kv, json_size kv.2) _ _ Hkv). cbn beta in *. lia.
Qed.

Lemma truncated_value v : json_ok v = true → cut_early v.
Proof.
  induction v as [| [] | z | s | l IH | o IH] using json_ind; intros Hok ind w p n Hind Hw Hp Hn.
  1-3: left; cbn [ser] in Hp; eapply parse_value_literal_prefix; [exact Hw| |exact Hp]; auto.
  - by apply parse_value_number_prefix with z.
  - left. destruct n as [|n]; [done|]. cbn [ser] in Hp.
    unfold quote_json_string, dquote at 1, char at 1 in Hp. rewrite sapp_cons, sapp_nil_l in Hp.
    destruct (strict_prefix_cons _ _ _ Hp) as [->|(p' & -> & Hp')]; [apply parse_value_ws; by rewrite sapp_nil_r|].
    open_bracket. cbn [nat_of_ascii ascii_of_nat]. by rewrite (read_chars_prefix s).
  - left. by apply (truncated_array l IH Hok ind).
  - left. by apply (truncated_object o IH Hok ind).
Qed.

(** A printed array or object cut short is rejected. *)
Lemma truncated_composite v :
  json_ok v = true → (∃ l, v = JArray l) ∨ (∃ o, v = JObject o) → cut_rejected v.
Proof.
  intros Hok [(l & ->)|(o & ->)].
  - apply truncated_array; [|done]. apply List.Forall_forall. intros v' Hv' _.
    apply truncated_value, (json_ok_array l Hok), list_elem_of_In, Hv'.
  - apply truncated_object; [|done]. apply List.Forall_forall. intros kv Hkv _.
    apply truncated_value. apply json_ok_object in Hok as [_ Hall]. apply Hall, list_elem_of_In, Hkv.
Qed.

End truncated.

(** ** The whole text cut anywhere *)

(** Every prefix of a printed array or object followed by a newline reads
    as that value when the printed value is all there, and is rejected
    otherwise. *)
Lemma parse_json_prefix gap v p q :
  ws gap → json_ok v = true → (∃ l, v = JArray l) ∨ (∃ o, v = JObject o) →
  ser gap "" v +s+ nl = p +s+ q →
  parse_json p = if String.length (ser gap "" v) <=? String.length p then Some v else None.
Proof.
  intros Hgap Hok Hv Hpq. symmetry in Hpq.
  destruct (sapp_split _ _ _ _ Hpq) as [(m & Hs & _)|(m & -> & Hm)].
  - destruct m as [|c m].
    + rewrite sapp_nil_r in Hs. subst p. rewrite Nat.leb_refl, <- (sapp_nil_r (ser gap "" v)).
      by apply parse_json_ser.
    + assert (Hp : strict_prefix p (ser gap "" v)) by (by exists (String c m)).
      rewrite (proj2 (Nat.leb_gt _ _)) by by apply strict_prefix_length.
      unfold parse_json. rewrite <- (parse_value_fuel (String.length p) (String.length p + json_size v) p) by lia.
      rewrite <- (sapp_nil_l p), (truncated_composite gap Hgap v Hok Hv "" "" p); [done..|lia].
  - assert (Hw : ws m).
    { destruct m as [|c m]; [done|]. unfold nl, char in Hm. rewrite sapp_cons in Hm.
      injection Hm as <- Hm. destruct m; [done|]. by destruct q. }
    rewrite slength_app, (proj2 (Nat.leb_le _ _)) by lia. by apply parse_json_ser.
Qed.
