(* ===== verification/Minify.v ===== *)
(** * Indentation only adds whitespace

    [JSON.stringify(v, null, 2)] and [JSON.stringify(v)] differ only by
    whitespace between tokens.  [minify] is the reference for that: it
    scans a text as a JSON lexer does, in one of three modes (outside a
    string, inside one, just after a backslash inside one), and drops the
    whitespace it meets outside strings.  [minify_stringify] shows that
    minifying the program's indented printer gives the compact printer,
    for every value and every indentation width. *)

From S2P Require Import Prelude Json Stringify Parse.
From Stdlib Require Import Ascii Decimal DecimalString DecimalPos.

(** ** The reference *)

Inductive lex_mode := Outside | Inside | Escaped.

Definition next_mode (m : lex_mode) (c : ascii) : lex_mode :=
  match m with
  | Outside => if nat_of_ascii c =? 34 then Inside else Outside
  | Inside => if nat_of_ascii c =? 34 then Outside else if nat_of_ascii c =? 92 then Escaped else Inside
  | Escaped => Inside
  end.

Fixpoint mode_after (m : lex_mode) (s : string) : lex_mode :=
  match s with
  | EmptyString => m
  | String c r => mode_after (next_mode m c) r
  end.

Fixpoint minify_from (m : lex_mode) (s : string) : string :=
  match s with
  | EmptyString => EmptyString
  | String c r =>
      match m with
      | Outside => if is_ws c then minify_from Outside r else String c (minify_from (next_mode m c) r)
      | _ => String c (minify_from (next_mode m c) r)
      end
  end.

Definition minify (s : string) : string := minify_from Outside s.

(** A text that a lexer leaves outside any string, and that [minify]
    leaves unchanged. *)
Definition token (s : string) : Prop := minify s = s ∧ mode_after Outside s = Outside.

(** ** Laws of the lexer *)

Definition closed (s : string) : Prop := mode_after Outside s = Outside.

Lemma ws_next c : is_ws c = true → next_mode Outside c = Outside.
Proof.
  unfold is_ws, next_mode. rewrite !orb_true_iff, !Nat.eqb_eq. intros [[[H|H]|H]|H]; by rewrite H.
Qed.

Lemma mode_after_app m a b : mode_after m (a +s+ b) = mode_after (mode_after m a) b.
Proof. revert m. induction a as [|c a IH]; intros m; [done|]. apply IH. Qed.

Lemma minify_from_app m a b :
  minify_from m (a +s+ b) = minify_from m a +s+ minify_from (mode_after m a) b.
Proof.
  revert m. induction a as [|c a IH]; intros m; [done|]. rewrite sapp_cons.
  destruct m; cbn [minify_from mode_after]; rewrite ?IH, ?sapp_cons; try done.
  destruct (is_ws c) eqn:Hc; [by rewrite ws_next|by rewrite sapp_cons].
Qed.

Lemma minify_app a b : closed a → minify (a +s+ b) = minify a +s+ minify b.
Proof. unfold minify, closed. intros Ha. by rewrite minify_from_app, Ha. Qed.

Lemma closed_app a b : closed a → closed b → closed (a +s+ b).
Proof. unfold closed. intros Ha Hb. by rewrite mode_after_app, Ha. Qed.

Lemma ws_minify w : ws w → minify w = EmptyString ∧ closed w.
Proof.
  unfold ws, minify, closed. induction w as [|c w IH]; [done|]. cbn [string_forall].
  intros [Hc Hw]%andb_true_iff. cbn [minify_from mode_after]. rewrite Hc, ws_next by done. by apply IH.
Qed.

(** Characters that are neither whitespace nor a quote pass through. *)
Definition bare (c : ascii) : bool := negb (is_ws c) && negb (nat_of_ascii c =? 34).

Lemma bare_token s : string_forall bare s = true → minify s = s ∧ closed s.
Proof.
  unfold minify, closed. induction s as [|c s IH]; [done|]. cbn [string_forall].
  intros [Hc Hs]%andb_true_iff. unfold bare in Hc. apply andb_true_iff in Hc as [H1 H2].
  apply negb_true_iff in H1, H2. cbn. rewrite H1, H2. destruct (IH Hs) as [-> ->]. done.
Qed.

Lemma uint_bare u : string_forall bare (NilEmpty.string_of_uint u) = true.
Proof. induction u; cbn [NilEmpty.string_of_uint string_forall]; by rewrite ?IHu. Qed.

Lemma number_bare z : string_forall bare (number_to_string z) = true.
Proof.
  unfold number_to_string. destruct z as [|p|p]; cbn [Z.to_int NilZero.string_of_int]; [done|..];
    rewrite nilzero_uint by apply Unsigned.to_uint_nonnil; [|cbn [string_forall]]; by rewrite uint_bare.
Qed.

(** Inside a string, every escape [QuoteJSONString] writes keeps the lexer
    inside it: a quote or backslash is always preceded by a backslash. *)
Lemma escape_char_inside c :
  minify_from Inside (escape_char c) = escape_char c ∧ mode_after Inside (escape_char c) = Inside.
Proof. destruct c as [[] [] [] [] [] [] [] []]; vm_compute; split; reflexivity. Qed.

Lemma escape_string_inside s :
  minify_from Inside (escape_string s) = escape_string s ∧ mode_after Inside (escape_string s) = Inside.
Proof.
  induction s as [|c s [IH1 IH2]]; [done|]. cbn [escape_string].
  destruct (escape_char_inside c) as [H1 H2].
  by rewrite minify_from_app, mode_after_app, H1, H2, IH1, IH2.
Qed.

Lemma quote_token s : minify (quote_json_string s) = quote_json_string s ∧ closed (quote_json_string s).
Proof.
  unfold minify, closed, quote_json_string. destruct (escape_string_inside s) as [H1 H2].
  rewrite !minify_from_app, !mode_after_app. change (mode_after Outside dquote) with Inside.
  rewrite H1, H2. done.
Qed.

Lemma minify_join w1 parts :
  ws w1 → Forall closed parts →
  minify (join ("," +s+ w1) parts) = join "," (map minify parts) ∧ closed (join ("," +s+ w1) parts).
Proof.
  intros Hw. destruct (ws_minify w1 Hw) as [M1 C1].
  induction 1 as [|p ps Hp Hps IH]; [done|]. destruct ps as [|q ps]; [done|].
  destruct IH as [IH1 IH2].
  rewrite join_cons by done. change (map minify (p :: q :: ps)) with (minify p :: map minify (q :: ps)).
  rewrite (join_cons ",") by done. assert (Hc : closed ",") by reflexivity.
  rewrite !minify_app, M1, IH1 by (repeat apply closed_app; done).
  split; [done|]. by repeat apply closed_app.
Qed.

Lemma minify_wrap o c gap sb ind parts :
  ws sb → ws ind → minify o = o → closed o → minify c = c → closed c → Forall closed parts →
  minify (wrap o c gap sb ind parts) = o +s+ join "," (map minify parts) +s+ c ∧
  closed (wrap o c gap sb ind parts).
Proof.
  intros Hsb Hind Mo Co Mc Cc Hparts.
  destruct (wrap_ws o c gap sb ind parts Hsb Hind) as (w0 & w1 & w2 & Hw0 & Hw1 & Hw2 & ->).
  destruct (minify_join w1 parts Hw1 Hparts) as [MJ CJ].
  destruct (ws_minify w0 Hw0) as [M0 C0], (ws_minify w2 Hw2) as [M2 C2].
  rewrite !minify_app by (repeat apply closed_app; done). rewrite Mo, M0, MJ, M2, Mc.
  split; [done|]. by repeat apply closed_app.
Qed.

Lemma minify_member gap : minify (member_sep gap) = ":" ∧ closed (member_sep gap).
Proof. by destruct (member_sep_cases gap) as [-> | ->]. Qed.

Lemma minify_parts {A} (f g : A → string) l :
  Forall (λ x, minify (f x) = g x ∧ closed (f x)) l →
  map minify (map f l) = map g l ∧ Forall closed (map f l).
Proof.
  induction 1 as [|x l [H1 H2] Hl [IH1 IH2]]; [done|]. cbn [map]. rewrite H1, IH1.
  split; [done|]. by constructor.
Qed.

Section minify_ser.
Context (gap : string) (Hgap : ws gap).

Lemma minify_ser v : ∀ ind, ws ind → minify (ser gap ind v) = ser "" "" v ∧ closed (ser gap ind v).
Proof.
  induction v as [| [] | z | s | l IH | o IH] using json_ind; intros ind Hind;
    try (split; reflexivity).
  - apply bare_token, number_bare.
  - apply quote_token.
  - destruct l as [|x l]; [split; reflexivity|]. cbn [ser].
    destruct (minify_parts (ser gap (ind +s+ gap)) (ser "" "") (x :: l)) as [P1 P2].
    { refine (Forall_impl _ _ _ IH _). intros y Hy. apply Hy. auto with kb. }
    rewrite sapp_nil_l. destruct (minify_wrap "[" "]" gap ind (ind +s+ gap) (map (ser gap (ind +s+ gap)) (x :: l)))
      as [W1 W2]; try (reflexivity || assumption || auto with kb).
    rewrite W1, P1. done.
  - destruct o as [|kv o]; [split; reflexivity|]. cbn [ser].
    set (f := λ kv : string * json, quote_json_string kv.1 +s+ member_sep gap +s+ ser gap (ind +s+ gap) kv.2).
    destruct (minify_parts f (λ kv, quote_json_string kv.1 +s+ ":" +s+ ser "" "" kv.2) (kv :: o)) as [P1 P2].
    { refine (Forall_impl _ _ _ IH _). intros y Hy. subst f. cbn beta.
      destruct (quote_token y.1) as [Q1 Q2], (minify_member gap) as [S1 S2], (Hy (ind +s+ gap)) as [V1 V2];
        auto with kb.
      rewrite !minify_app, Q1, S1, V1 by assumption.
      split; [done|]. apply closed_app; [done|]. by apply closed_app. }
    rewrite sapp_nil_l. destruct (minify_wrap "{" "}" gap ind (ind +s+ gap) (map f (kv :: o))) as [W1 W2];
      try (reflexivity || assumption || auto with kb).
    rewrite W1, P1. done.
Qed.
End minify_ser.

(** ** Properties *)

(** C6: Equivalence with the compact printer: removing the whitespace
    outside strings from [JSON.stringify(v, null, space)] gives exactly
    [JSON.stringify(v)], for every value and every indentation width;
    indentation only adds whitespace between tokens. *)
Theorem minify_stringify v space : minify (JSON_stringify v space) = JSON_stringify v 0.
Proof. apply (minify_ser _ (ws_spaces _) v "" ws_nil). Qed.
