(* ===== verification/Document.v ===== *)
(** * The document and the program's only effect

    Lines 350-363 of [src/karabiner.js]: the document [{global, profiles}]
    ([DOCUMENT]) is serialized with [JSON.stringify(..., null, 2)], a newline
    is appended ([OUTPUT]), and the text is written to standard output in one
    call ([main]).  The output stream is the text written so far and the
    room its reader leaves: a pipe whose reader takes [n] more bytes and
    then closes receives the first [n] bytes of a longer write, and the
    write fails with [EPIPE]; the process then exits with status 1, as
    Node does on an unhandled stream error (spec sections 5 and 7).

    The lemmas over the whole document walk its [subvalues]: every number
    is a small non-negative integer, no key is an array index, every string
    is printable ASCII needing no escape (the three facts under which the
    serializer of [Stringify.v] is JavaScript's).  [main_outcome] composes
    the write with [Truncate.v]: whatever the reader of the pipe takes,
    what it holds is a prefix of the output, the exit status is 0 exactly
    when all of it got through, and the prefix reads as [DOCUMENT] when the
    printed document is all there and as an error otherwise. *)

From S2P Require Import Prelude Json Combinators Devices Profiles Stringify Parse Truncate.
From Stdlib Require Import Ascii.

(** ** The document *)

Definition GLOBAL : obj :=
  [("check_for_updates_on_startup", JBool true);
   ("show_in_menu_bar", JBool true);
   ("show_profile_name_in_menu_bar", JBool false)].

Definition DOCUMENT : json :=
  JObject [("global", JObject GLOBAL);
           ("profiles", JArray [JObject DEFAULT_PROFILE; JObject VANILLA_PROFILE])].

Definition OUTPUT : string := JSON_stringify DOCUMENT 2 +s+ nl.

(** ** Writing to standard output *)

Record stdout_state := { written : string; room : option nat }.

Inductive write_error := EPIPE.

(** [process.stdout.write(s)]: the bytes the reader still takes are
    written ([None]: it takes everything); if the text is longer, the rest
    is lost and the write fails. *)
Definition stdout_write (s : string) (st : stdout_state) : (write_error * stdout_state) + stdout_state :=
  match room st with
  | None => inr {| written := written st +s+ s; room := None |}
  | Some n =>
      if String.length s <=? n then inr {| written := written st +s+ s; room := Some (n - String.length s) |}
      else inl (EPIPE, {| written := written st +s+ substring 0 n s; room := Some 0 |})
  end.

(** The process: what standard output holds at exit, and the exit code. *)
Definition main (st : stdout_state) : stdout_state * Z :=
  match stdout_write OUTPUT st with
  | inr st' => (st', 0%Z)
  | inl (EPIPE, st') => (st', 1%Z)
  end.

(** ** Walking a value *)

Fixpoint subvalues (v : json) : list json :=
  v :: match v with
       | JArray l => flat_map subvalues l
       | JObject o => flat_map (λ kv, subvalues kv.2) o
       | _ => []
       end.

Definition numbers_of (v : json) : list Z :=
  omap (λ w, match w with JNumber n => Some n | _ => None end) (subvalues v).

Definition keys_of (v : json) : list string :=
  flat_map (λ w, match w with JObject o => o.*1 | _ => [] end) (subvalues v).

Definition string_values_of (v : json) : list string :=
  omap (λ w, match w with JString s => Some s | _ => None end) (subvalues v).

Definition key_codes_of (v : json) : list string :=
  omap (λ w, as_string (json_get w "key_code")) (subvalues v).

(** ** Classes of keys and key codes *)

(** The value of a decimal numeral, read after [acc]. *)
Fixpoint decimal_value (acc : Z) (s : string) : Z :=
  match s with
  | EmptyString => acc
  | String c s' => decimal_value (10 * acc + Z.of_nat (nat_of_ascii c - 48))%Z s'
  end.

(** A canonical array index: a decimal numeral without leading zero whose
    value is below 2^32 - 1. *)
Definition is_array_index (s : string) : bool :=
  match s with
  | EmptyString => false
  | String c rest =>
      string_forall is_digit s &&
      (negb (nat_of_ascii c =? 48) || (rest =? EmptyString)%string) &&
      (decimal_value 0 s <? 4294967295)%Z
  end.

(** The Karabiner key-code convention every other key code of the file
    follows: lowercase letters, digits and underscores. *)
Definition snake_case (s : string) : bool :=
  negb (s =? EmptyString)%string &&
  string_forall (λ c, is_digit c || ((97 <=? nat_of_ascii c) && (nat_of_ascii c <=? 122))
                      || (nat_of_ascii c =? 95)) s.

(** ** The document, as the serializer needs it *)

(** Every number the document holds is an integer in [0, 2^53): a
    JavaScript double represents it exactly and prints it in decimal, as
    [number_to_string] does. *)
Lemma document_numbers_safe : Forall (λ n, 0 ≤ n < 2 ^ 53)%Z (numbers_of DOCUMENT).
Proof. kb_decide. Qed.

(** No key of any object of the document is an array index, so
    [JSON.stringify] enumerates every object's keys in creation order, the
    order [ser] prints. *)
Lemma document_keys_not_indices : Forall (λ k, is_array_index k = false) (keys_of DOCUMENT).
Proof. kb_decide. Qed.

(** Every key and every string value of the document is printable ASCII
    without quote or backslash, so QuoteJSONString only surrounds it with
    quotes: the output contains no escape sequence. *)
Lemma document_strings_unescaped :
  Forall (λ s, quote_json_string s = dquote +s+ s +s+ dquote)
    (keys_of DOCUMENT ++ string_values_of DOCUMENT).
Proof.
  assert (Hp : Forall (λ s, string_forall plain_char s = true)
                 (keys_of DOCUMENT ++ string_values_of DOCUMENT)) by kb_decide.
  refine (Forall_impl _ _ _ Hp _). intros s Hs.
  unfold quote_json_string. by rewrite escape_string_plain.
Qed.

(** Four key codes of the document break the lowercase snake-case
    spelling Karabiner's key codes use ("-", "=", "PageDown", "PageUp",
    each in the two SpaceFN entries of its key); every other key code
    follows it. *)
Lemma nonconforming_key_codes :
  filter (λ s, snake_case s = false) (key_codes_of DOCUMENT)
    = ["-"; "-"; "="; "="; "PageDown"; "PageDown"; "PageUp"; "PageUp"].
Proof. vm_compute. reflexivity. Qed.

(** The round trip applies to the document: its objects have no repeated key. *)
Lemma document_json_ok : json_ok DOCUMENT = true.
Proof. vm_compute. reflexivity. Qed.

(** Every prefix of the output reads as the document once the printed
    document is all there, and is rejected before. *)
Lemma output_prefix_reads p q :
  OUTPUT = p +s+ q →
  parse_json p = if String.length (JSON_stringify DOCUMENT 2) <=? String.length p then Some DOCUMENT else None.
Proof.
  intros Hpq. apply (parse_json_prefix (gap_of_space 2) DOCUMENT p q);
    [apply ws_spaces|apply document_json_ok|right; eexists; reflexivity|done].
Qed.

(** ** Properties *)

(** C7: Error behaviour of the process (spec sections 5 and 7), for every
    stream, however many bytes its reader takes before closing: standard
    output ends with what it held followed by a prefix [p] of the output;
    the exit status is 0 exactly when [p] is the whole output; and a reader
    of [p] gets the document when the printed document got through (at
    worst only the final newline is lost) and a parse error otherwise, never
    another configuration. *)
Theorem main_outcome st :
  ∃ p, written (main st).1 = written st +s+ p ∧ (∃ q, OUTPUT = p +s+ q) ∧
       ((main st).2 = 0%Z ↔ p = OUTPUT) ∧
       parse_json p = if String.length (JSON_stringify DOCUMENT 2) <=? String.length p
                      then Some DOCUMENT else None.
Proof.
  unfold main, stdout_write.
  destruct (room st) as [n|]; [destruct (String.length OUTPUT <=? n) eqn:Hn|].
  2:{ destruct (substring_prefix n OUTPUT) as [q Hq]. exists (substring 0 n OUTPUT).
      apply Nat.leb_gt in Hn. split_and!; [done|by exists q| |by apply (output_prefix_reads _ q)].
      split; [done|]. intros Heq. pose proof (f_equal String.length Heq) as Hl.
      rewrite substring_length in Hl; lia. }
  all: exists OUTPUT; split_and!; [done|exists EmptyString; by rewrite sapp_nil_r|done|
                                   by apply (output_prefix_reads _ EmptyString); rewrite sapp_nil_r].
Qed.
