(* ===== verification/Schema.v ===== *)
(** * The shape of the document: the data model of spec section 3

    A small language of JSON types ([ty]): scalars, string enumerations,
    arrays with a minimum length, dictionaries, closed objects whose fields
    are each required or optional, and unions.  [has_type] is the checker,
    [typed] the typing relation; [has_type_spec] shows they agree.

    The types of spec section 3 are written with it: [KeyAction_ty],
    [MappingEntry_ty] (whose [from] is a single key or a chord of at least
    two keys with explicit [simultaneous_options], the invariant section 3
    states), [Rule_ty], [DeviceDescriptor_ty], [Profile_ty],
    [Document_ty]; [SimpleModification_ty] is the one-to-one entry of the
    [simple_modifications] and [fn_function_keys] lists.  The document the
    program builds has type [Document_ty] ([document_well_typed]), and
    object spread keeps a closed object type ([obj_lit_typed]): spreading
    an object of the type and overriding fields with values of their
    types, as [DEFAULT_PROFILE] does with [VANILLA_PROFILE], gives an
    object of the type again. *)

From S2P Require Import Prelude Json Combinators Devices Profiles Document.


Unset Elimination Schemes.
Inductive ty : Type :=
  | TAny | TBool | TNum | TStr
  | TEnum (ss : list string)
  | TArr (min : nat) (t : ty)
  | TDict (t : ty)
  | TObj (fs : list (string * bool * ty))
  | TOr (a b : ty).
Set Elimination Schemes.

Fixpoint nodupb (ks : list string) : bool :=
  match ks with [] => true | k :: ks' => negb (existsb (String.eqb k) ks') && nodupb ks' end.

Fixpoint field_ok (chk : ty → json → bool) (fs : list (string * bool * ty)) (k : string) (v : json) : bool :=
  match fs with
  | [] => false
  | (k', _, t) :: fs' => if String.eqb k k' then chk t v else field_ok chk fs' k v
  end.

Fixpoint has_type (t : ty) (v : json) : bool :=
  match t, v with
  | TAny, _ => true
  | TBool, JBool _ => true
  | TNum, JNumber _ => true
  | TStr, JString _ => true
  | TEnum ss, JString s => existsb (String.eqb s) ss
  | TArr n t', JArray l => (n <=? List.length l) && forallb (has_type t') l
  | TDict t', JObject o => nodupb o.*1 && forallb (λ kv, has_type t' kv.2) o
  | TObj fs, JObject o =>
      nodupb o.*1 && forallb (λ kv, field_ok has_type fs kv.1 kv.2) o &&
      forallb (λ f, negb f.1.2 || existsb (String.eqb f.1.1) o.*1) fs
  | TOr a b, _ => has_type a v || has_type b v
  | _, _ => false
  end.

Section ty_ind.
Context (P : ty → Prop)
  (Hany : P TAny) (Hbool : P TBool) (Hnum : P TNum) (Hstr : P TStr)
  (Henum : ∀ ss, P (TEnum ss))
  (Harr : ∀ n t, P t → P (TArr n t))
  (Hdict : ∀ t, P t → P (TDict t))
  (Hobj : ∀ fs, Forall (λ f, P f.2) fs → P (TObj fs))
  (Hor : ∀ a b, P a → P b → P (TOr a b)).

Fixpoint ty_ind (t : ty) : P t :=
  match t with
  | TAny => Hany | TBool => Hbool | TNum => Hnum | TStr => Hstr
  | TEnum ss => Henum ss
  | TArr n t' => Harr n t' (ty_ind t')
  | TDict t' => Hdict t' (ty_ind t')
  | TObj fs =>
      Hobj fs ((fix go (fs : list (string * bool * ty)) : Forall (λ f, P f.2) fs :=
                  match fs with
                  | [] => @List.Forall_nil _ _
                  | f :: fs' => @List.Forall_cons _ (λ f, P f.2) f fs' (ty_ind f.2) (go fs')
                  end) fs)
  | TOr a b => Hor a b (ty_ind a) (ty_ind b)
  end.
End ty_ind.

Fixpoint field_type (fs : list (string * bool * ty)) (k : string) : option ty :=
  match fs with
  | [] => None
  | (k', _, t) :: fs' => if String.eqb k k' then Some t else field_type fs' k
  end.

Inductive typed : ty → json → Prop :=
  | typed_any v : typed TAny v
  | typed_bool b : typed TBool (JBool b)
  | typed_num n : typed TNum (JNumber n)
  | typed_str s : typed TStr (JString s)
  | typed_enum ss s : s ∈ ss → typed (TEnum ss) (JString s)
  | typed_arr n t l : n ≤ List.length l → Forall (typed t) l → typed (TArr n t) (JArray l)
  | typed_dict t o : NoDup o.*1 → Forall (λ kv, typed t kv.2) o → typed (TDict t) (JObject o)
  | typed_obj fs o :
      NoDup o.*1 →
      Forall (λ kv, ∃ t, field_type fs kv.1 = Some t ∧ typed t kv.2) o →
      Forall (λ f, f.1.2 = true → f.1.1 ∈ o.*1) fs →
      typed (TObj fs) (JObject o)
  | typed_or_l a b v : typed a v → typed (TOr a b) v
  | typed_or_r a b v : typed b v → typed (TOr a b) v.


(** ** The types of spec section 3 *)

Definition req (k : string) (t : ty) : string * bool * ty := (k, true, t).
Definition opt (k : string) (t : ty) : string * bool * ty := (k, false, t).

Definition KeyAction_ty : ty := TObj [req "key_code" TStr].

(** What a manipulator emits: a key, possibly lazy, or a variable assignment. *)
Definition ToEvent_ty : ty :=
  TOr (TObj [req "key_code" TStr; opt "lazy" TBool])
      (TObj [req "set_variable" (TObj [req "name" TStr; req "value" TNum])]).

Definition Modifiers_ty : ty := TObj [opt "mandatory" (TArr 0 TStr); opt "optional" (TArr 0 TStr)].

Definition Order_ty : ty := TEnum ["strict"; "strict_inverse"; "insensitive"].

Definition FromKey_ty : ty := TObj [req "key_code" TStr; opt "modifiers" Modifiers_ty].

Definition FromChord_ty : ty :=
  TObj [req "simultaneous" (TArr 2 KeyAction_ty);
        req "simultaneous_options"
          (TObj [req "key_down_order" Order_ty; req "key_up_order" Order_ty;
                 opt "to_after_key_up" (TArr 0 ToEvent_ty)]);
        opt "modifiers" Modifiers_ty].

Definition Condition_ty : ty :=
  TObj [req "name" TStr; req "type" (TEnum ["variable_if"; "variable_unless"]); req "value" TNum].

Definition MappingEntry_ty : ty :=
  TObj [req "from" (TOr FromKey_ty FromChord_ty);
        req "to" (TArr 0 ToEvent_ty);
        opt "to_if_alone" (TArr 0 ToEvent_ty);
        opt "to_if_held_down" (TArr 0 ToEvent_ty);
        req "type" (TEnum ["basic"]);
        opt "conditions" (TArr 0 Condition_ty);
        opt "parameters" (TDict TNum)].

Definition Rule_ty : ty := TObj [req "description" TStr; req "manipulators" (TArr 0 MappingEntry_ty)].

Definition SimpleModification_ty : ty := TObj [req "from" KeyAction_ty; req "to" KeyAction_ty].

Definition Identifiers_ty : ty :=
  TObj [req "vendor_id" TNum; req "product_id" TNum; req "is_keyboard" TBool; req "is_pointing_device" TBool].

Definition DeviceDescriptor_ty : ty :=
  TObj [req "identifiers" Identifiers_ty; req "ignore" TBool; req "manipulate_caps_lock_led" TBool;
        req "disable_built_in_keyboard_if_exists" TBool;
        req "fn_function_keys" (TArr 0 SimpleModification_ty);
        req "simple_modifications" (TArr 0 SimpleModification_ty)].

Definition Profile_fields : list (string * bool * ty) :=
  [req "name" TStr; req "selected" TBool; req "devices" (TArr 0 DeviceDescriptor_ty);
        req "simple_modifications" (TArr 0 SimpleModification_ty);
        req "fn_function_keys" (TArr 0 SimpleModification_ty);
        req "complex_modifications" (TObj [req "parameters" (TDict TNum); req "rules" (TArr 0 Rule_ty)]);
        req "virtual_hid_keyboard" (TDict TAny)].

Definition Profile_ty : ty := TObj Profile_fields.

Definition Document_ty : ty := TObj [req "global" (TDict TBool); req "profiles" (TArr 1 Profile_ty)].

(** ** The checker and the relation agree *)

Lemma existsb_eqb_elem s ss : existsb (String.eqb s) ss = true ↔ s ∈ ss.
Proof.
  rewrite existsb_exists, list_elem_of_In. split.
  - intros (s' & Hin & ->%String.eqb_eq). done.
  - intros Hin. exists s. by rewrite String.eqb_refl.
Qed.

Lemma nodupb_spec ks : nodupb ks = true ↔ NoDup ks.
Proof.
  induction ks as [|k ks IH]; cbn [nodupb].
  - split; [constructor|done].
  - rewrite andb_true_iff, negb_true_iff, NoDup_cons, IH, <- existsb_eqb_elem.
    destruct (existsb _ _); naive_solver.
Qed.

Lemma field_ok_spec chk fs k v :
  field_ok chk fs k v = match field_type fs k with Some t => chk t v | None => false end.
Proof. induction fs as [|[[k' r] t] fs IH]; [done|]. cbn. by destruct (String.eqb k k'). Qed.

Lemma field_type_elem fs k t : field_type fs k = Some t → ∃ r, (k, r, t) ∈ fs.
Proof.
  induction fs as [|[[k' r] t'] fs IH]; [done|]. cbn.
  destruct (String.eqb_spec k k') as [->|_].
  - intros [= ->]. exists r. by left.
  - intros (r' & Hin)%IH. exists r'. by right.
Qed.

Lemma forallb_Forall {A} (f : A → bool) (P : A → Prop) l :
  (∀ x, x ∈ l → f x = true ↔ P x) → forallb f l = true ↔ Forall P l.
Proof.
  intros H. rewrite forallb_forall, Forall_forall.
  split; intros Hl x Hx; [apply H, Hl, list_elem_of_In|apply H, Hl]; done || by apply list_elem_of_In.
Qed.

Lemma required_spec (fs : list (string * bool * ty)) (ks : list string) :
  forallb (λ f, negb f.1.2 || existsb (String.eqb f.1.1) ks) fs = true ↔
  Forall (λ f, f.1.2 = true → f.1.1 ∈ ks) fs.
Proof.
  apply forallb_Forall. intros [[k []] t] _; cbn; rewrite ?existsb_eqb_elem; naive_solver.
Qed.

Lemma fields_spec fs (o : obj) :
  Forall (λ f, ∀ v, has_type f.2 v = true ↔ typed f.2 v) fs →
  forallb (λ kv, field_ok has_type fs kv.1 kv.2) o = true ↔
  Forall (λ kv, ∃ t, field_type fs kv.1 = Some t ∧ typed t kv.2) o.
Proof.
  intros IH. apply forallb_Forall. intros kv _. rewrite field_ok_spec.
  destruct (field_type fs kv.1) as [t|] eqn:Hf; [|naive_solver].
  destruct (field_type_elem _ _ _ Hf) as [r Hin]. rewrite Forall_forall in IH.
  rewrite (IH _ Hin). naive_solver.
Qed.

Local Ltac or_case :=
  match goal with
  | IHa : ∀ v, has_type ?a v = true ↔ typed ?a v, IHb : ∀ v, has_type ?b v = true ↔ typed ?b v |- _ =>
      rewrite ?orb_true_iff in *;
      first [destruct select (_ ∨ _) as [H|H]; [apply typed_or_l, IHa|apply typed_or_r, IHb]; done
            |left; by apply IHa|right; by apply IHb]
  end.

Theorem has_type_spec t v : has_type t v = true ↔ typed t v.
Proof.
  revert v. induction t as [| | | | ss | n t IH | t IH | fs IH | a b IHa IHb] using ty_ind; intros v;
    (split; [destruct v; cbn [has_type]; try done; intros H|inversion 1; subst; cbn [has_type]]);
    try solve [constructor | done | or_case]; rewrite ?andb_true_iff in *.
  - constructor. by apply existsb_eqb_elem.
  - by apply existsb_eqb_elem.
  - destruct H as [Hn Hl]. apply Nat.leb_le in Hn. constructor; [done|].
    by rewrite <- (forallb_Forall (has_type t)) by (intros; apply IH).
  - rewrite Nat.leb_le, (forallb_Forall (has_type t) (typed t)) by (intros; apply IH). done.
  - destruct H as [Hd Ho]. constructor; [by apply nodupb_spec|].
    by rewrite <- (forallb_Forall (λ kv, has_type t kv.2)) by (intros; apply IH).
  - rewrite nodupb_spec, (forallb_Forall (λ kv, has_type t kv.2) (λ kv, typed t kv.2)) by (intros; apply IH).
    done.
  - destruct H as [[Hd Ho] Hr]. constructor.
    + by apply nodupb_spec.
    + by apply fields_spec.
    + by apply required_spec.
  - rewrite nodupb_spec, required_spec, fields_spec by done. done.
Qed.

Lemma Forall_has_type t l : Forall (λ v, has_type t v = true) l → Forall (typed t) l.
Proof. intros Hl. refine (Forall_impl _ _ _ Hl _). intros v. apply has_type_spec. Qed.

(** ** Properties *)

(** ** Spread keeps the type *)

(** Every property of [o] is a field of [fs], with a value of its type. *)
Definition fields_typed (fs : list (string * bool * ty)) (o : obj) : Prop :=
  Forall (λ kv, ∃ t, field_type fs kv.1 = Some t ∧ typed t kv.2) o.

(** A spread or a field of an object literal, all of whose properties are
    fields of [fs] with values of their types. *)
Definition def_typed (fs : list (string * bool * ty)) (d : prop_def) : Prop :=
  match d with
  | PSpread src => fields_typed fs src
  | PField k v => ∃ t, field_type fs k = Some t ∧ typed t v
  end.

Lemma copy_data_typed fs t s : fields_typed fs t → fields_typed fs s → fields_typed fs (copy_data t s).
Proof.
  revert t. induction s as [|[k v] s IH]; intros t Ht Hs; [done|].
  apply Forall_cons in Hs as [Hkv Hs]. apply (IH (assoc_set t k v)); [|done].
  by apply Forall_assoc_set.
Qed.

Lemma fold_prop_step_typed fs ds o :
  fields_typed fs o → Forall (def_typed fs) ds → fields_typed fs (fold_left prop_step ds o).
Proof.
  revert o. induction ds as [|[src|k v] ds IH]; intros o Ho Hds; [done|..];
    apply Forall_cons in Hds as [Hd Hds]; apply IH; try done.
  - by apply copy_data_typed.
  - by apply Forall_assoc_set.
Qed.

Lemma copy_data_keys_mono t s k : k ∈ t.*1 → k ∈ (copy_data t s).*1.
Proof.
  revert t. induction s as [|[k' v'] s IH]; intros t Hk; [done|].
  apply (IH (assoc_set t k' v')), assoc_set_keys_elem. by right.
Qed.

Lemma fold_prop_step_keys_mono ds o k : k ∈ o.*1 → k ∈ (fold_left prop_step ds o).*1.
Proof.
  revert o. induction ds as [|[src|k' v'] ds IH]; intros o Hk; [done|..]; apply IH.
  - by apply copy_data_keys_mono.
  - apply assoc_set_keys_elem. by right.
Qed.

(** A field list can be checked by evaluation. *)
Lemma field_ok_typed fs k v : field_ok has_type fs k v = true → ∃ t, field_type fs k = Some t ∧ typed t v.
Proof.
  rewrite field_ok_spec. destruct (field_type fs k) as [t|]; [|done].
  intros Ht. exists t. split; [done|]. by apply has_type_spec.
Qed.

(** The document the program writes has the type of spec section 3:
    global flags, then at least one profile, each with its devices, simple
    and function-key modifications and rules, every mapping entry's [from]
    a single key or a chord of at least two keys with its options. *)
Lemma document_well_typed : typed Document_ty DOCUMENT.
Proof. apply has_type_spec. vm_compute. reflexivity. Qed.

(** Finding: the entry [fromTo a b] is not a mapping entry in the sense
    of spec section 3, whose [to] is an ordered sequence of key actions: its
    [to] is a single key action object (and it has no [type]). *)
Lemma fromTo_not_mapping_entry a b :
  Forall (λ e, ¬ typed MappingEntry_ty e ∧ json_get e "to" = Some (JObject [("key_code", JString b)]))
    (fromTo a b).
Proof. repeat constructor. rewrite <- has_type_spec. by vm_compute. Qed.

(** ** Properties *)

(** C8: Type preservation of object spread (spec section 4.4): an object
    literal that first spreads an object of a closed object type [TObj fs]
    and then spreads or sets only fields of [fs], each with a value of the
    field's type, evaluates to an object of that type again.  The spread
    creates each key once and never drops one, so no key is repeated and
    every required field stays; an override replaces a value in place. *)
Theorem obj_lit_typed fs o ds :
  typed (TObj fs) (JObject o) → Forall (def_typed fs) ds →
  typed (TObj fs) (JObject (obj_lit (PSpread o :: ds))).
Proof.
  inversion 1 as [| | | | | | |? ? Hnd Hfs Hreq| |]; subst. intros Hds.
  unfold obj_lit. cbn [fold_left prop_step]. rewrite copy_data_nil_l by done.
  apply typed_obj.
  - by apply fold_prop_step_wf.
  - by apply fold_prop_step_typed.
  - refine (Forall_impl _ _ _ Hreq _). intros f Hf Hr. by apply fold_prop_step_keys_mono, Hf.
Qed.

(** ** Witnesses *)

(** The Default profile has the type of a profile because Vanilla has it
    and each of its five overrides is a profile field of the right type. *)
Lemma obj_lit_typed_witness :
  let ds := [PField "complex_modifications"
               (JObject [("parameters", JObject DEFAULT_PARAMETERS);
                         ("rules", JArray [SPACEFN_RULE; CAPS_RULE; RETURN_RULE; TAB_RULE; SHIFT_RULE])]);
             PField "devices" (JArray [JObject YUBIKEY; JObject REALFORCE; JObject APPLE_INTERNAL]);
             PField "name" (JString "Default");
             PField "selected" (JBool true);
             PField "simple_modifications" (JArray DEFAULT_SIMPLE_MODIFICATIONS)] in
  typed (TObj Profile_fields) (JObject VANILLA_PROFILE) ∧ Forall (def_typed Profile_fields) ds ∧
  typed (TObj Profile_fields) (JObject (obj_lit (PSpread VANILLA_PROFILE :: ds))).
Proof.
  intros ds.
  assert (Hv : typed (TObj Profile_fields) (JObject VANILLA_PROFILE))
    by (apply has_type_spec; vm_compute; reflexivity).
  assert (Hds : Forall (def_typed Profile_fields) ds)
    by (repeat apply List.Forall_cons; try apply List.Forall_nil; apply field_ok_typed; vm_compute; reflexivity).
  split_and!; [exact Hv|exact Hds|apply obj_lit_typed; [exact Hv|exact Hds]].
Defined.
