(* ===== verification/Layer.v ===== *)
(** * What the manipulators do: the consumer's reading (spec sections 3, 4.3)

    The program only writes manipulators; the remapping engine that runs them
    is outside the repository.  To state what [spaceFN] is for, this file
    models the part of that engine spec sections 3 and 4.3 describe, reading
    the generated JSON directly:
    - a variable store ([vars]), every variable 0 until set;
    - three kinds of event: a key pressed on its own ([KeyDown]), two keys
      pressed in a given order within the chord window ([ChordDown]), and a
      chord's keys released in a given order ([ChordUp]);
    - the first manipulator, in rule order, whose [from] matches the event
      and whose [variable_if] conditions hold runs its [to] list (for a key
      down) or its [to_after_key_up] list (for a chord release): a
      [set_variable] item updates the store, a [key_code] item is emitted;
    - an event no manipulator takes passes through unchanged.
    [key_down_order] / [key_up_order] are read as the spec says: [strict]
    is the listed order, [strict_inverse] its reverse, [insensitive] (or no
    option) either order.  Modifiers, [lazy], [to_if_alone] and
    [to_if_held_down] are not modelled: the theorems are about events they do
    not affect.

    The layer spec section 4.3 describes is also written as a machine of
    its own ([layer_step]): a table of trigger keys and targets and the
    toggle, with no manipulators.  One SpaceFN pair is the machine of its
    one-entry table ([spaceFN_step]), the pairs of a whole table are the
    machine of the table ([spaceFN_table_step]), and the Default profile
    is the machine over the table of lines 187-205 on every trace of
    events on layer keys ([default_layer_refines]).  The invariant over
    [reachable] stores is proved by rule induction. *)

From S2P Require Import Prelude Json Combinators Devices Profiles.

(** ** Events and the variable store *)

Inductive event : Type :=
  | KeyDown (k : string)
  | ChordDown (k1 k2 : string)
  | ChordUp (k1 k2 : string).

Abbreviation vars := (list (string * Z)).

Definition var_value (vs : vars) (n : string) : Z := default 0%Z (assoc_get vs n).

(** ** Reading a manipulator *)

Definition cond_holds (vs : vars) (c : json) : bool :=
  match as_string (json_get c "type"), as_string (json_get c "name"), json_get c "value" with
  | Some t, Some n, Some (JNumber v) => String.eqb t "variable_if" && Z.eqb (var_value vs n) v
  | _, _, _ => false
  end.

Definition conds_hold (vs : vars) (m : json) : bool :=
  forallb (cond_holds vs) (as_array (json_get m "conditions")).

Definition simultaneous_keys (m : json) : list string :=
  omap (λ k, as_string (json_get k "key_code")) (as_array (get_path ["from"; "simultaneous"] m)).

Definition chord_option (m : json) (opt : string) : option string :=
  as_string (get_path ["from"; "simultaneous_options"; opt] m).

Fixpoint keys_eqb (ks1 ks2 : list string) : bool :=
  match ks1, ks2 with
  | [], [] => true
  | k1 :: r1, k2 :: r2 => String.eqb k1 k2 && keys_eqb r1 r2
  | _, _ => false
  end.

(** Do the keys pressed (or released) in the order [k1], [k2] satisfy
    the chord [keys] under the ordering option [order]? *)
Definition order_ok (order : option string) (keys : list string) (k1 k2 : string) : bool :=
  match order with
  | Some o =>
      if String.eqb o "strict" then keys_eqb keys [k1; k2]
      else if String.eqb o "strict_inverse" then keys_eqb keys [k2; k1]
      else keys_eqb keys [k1; k2] || keys_eqb keys [k2; k1]
  | None => keys_eqb keys [k1; k2] || keys_eqb keys [k2; k1]
  end.

Definition from_matches (ev : event) (m : json) : bool :=
  match ev with
  | KeyDown k => match entry_from_key m with Some k' => String.eqb k k' | None => false end
  | ChordDown k1 k2 => order_ok (chord_option m "key_down_order") (simultaneous_keys m) k1 k2
  | ChordUp k1 k2 => order_ok (chord_option m "key_up_order") (simultaneous_keys m) k1 k2
  end.

Definition takes (vs : vars) (ev : event) (m : json) : bool := from_matches ev m && conds_hold vs m.

(** ** Running a manipulator *)

Definition run_item (acc : list string * vars) (t : json) : list string * vars :=
  match json_get t "set_variable" with
  | Some sv =>
      match as_string (json_get sv "name"), json_get sv "value" with
      | Some n, Some (JNumber v) => (acc.1, assoc_set acc.2 n v)
      | _, _ => acc
      end
  | None =>
      match as_string (json_get t "key_code") with
      | Some k => (acc.1 ++ [k], acc.2)
      | None => acc
      end
  end.

Definition run_items (vs : vars) (ts : list json) : list string * vars := fold_left run_item ts ([], vs).

Definition actions (ev : event) (m : json) : list json :=
  match ev with
  | ChordUp _ _ => as_array (get_path ["from"; "simultaneous_options"; "to_after_key_up"] m)
  | _ => as_array (json_get m "to")
  end.

Definition passthrough (ev : event) : list string :=
  match ev with KeyDown k => [k] | ChordDown k1 k2 => [k1; k2] | ChordUp _ _ => [] end.

(** One event: what is emitted and the new store. *)
Definition step (ms : list json) (vs : vars) (ev : event) : list string * vars :=
  match List.find (takes vs ev) ms with
  | Some m => run_items vs (actions ev m)
  | None => (passthrough ev, vs)
  end.

(** A sequence of events, each handled by [f]: what each emits, and the
    final store. *)
Fixpoint run_with (f : vars → event → list string * vars) (vs : vars) (evs : list event)
    : list (list string) * vars :=
  match evs with
  | [] => ([], vs)
  | ev :: evs' => let r := f vs ev in let r' := run_with f r.2 evs' in (r.1 :: r'.1, r'.2)
  end.

Definition run (ms : list json) : vars → list event → list (list string) * vars := run_with (step ms).

(** The stores the engine can reach from the empty one, by rule induction. *)
Inductive reachable (ms : list json) : vars → Prop :=
  | reach_init : reachable ms []
  | reach_step vs ev : reachable ms vs → reachable ms (step ms vs ev).2.

Definition profile_manipulators (p : obj) : list json := flat_map rule_manipulators (profile_rules p).

(** The layer the SpaceFN rule is meant to implement: trigger key and the
    key it emits while the layer is on, in the order of lines 187-205. *)
Definition spacefn_layer : list (string * string) :=
  [("b", "spacebar"); ("h", "left_arrow"); ("j", "down_arrow"); ("k", "up_arrow");
   ("l", "right_arrow"); ("1", "display_brightness_decrement");
   ("2", "display_brightness_increment"); ("3", "mission_control"); ("4", "launchpad");
   ("5", "illumination_decrement"); ("6", "illumination_increment"); ("7", "rewind");
   ("8", "play_or_pause"); ("9", "fast_forward"); ("0", "mute"); ("-", "volume_decrement");
   ("=", "volume_increment"); ("d", "PageDown"); ("u", "PageUp")].

(** The layer of spec section 4.3 as a machine of its own, for a table [T]
    of trigger keys and targets: the chord space-then-key turns the toggle
    on and emits the key's target; the key alone emits it while the toggle
    is on; the chord released key-first turns the toggle off; the first
    entry of [T] for a key decides.  Any other event is [r], what happens
    without the layer. *)
Definition layer_step (T : list (string * string)) (vs : vars) (ev : event) (r : list string * vars)
    : list string * vars :=
  match ev with
  | KeyDown k =>
      match assoc_get T k with
      | Some y => if Z.eqb (var_value vs "SpaceFN") 1 then ([y], vs) else r
      | None => r
      end
  | ChordDown k1 k2 =>
      match assoc_get T k2 with
      | Some y => if String.eqb k1 "spacebar" then ([y], assoc_set vs "SpaceFN" 1%Z) else r
      | None => r
      end
  | ChordUp k1 k2 =>
      match assoc_get T k1 with
      | Some _ => if String.eqb k2 "spacebar" then ([], assoc_set vs "SpaceFN" 0%Z) else r
      | None => r
      end
  end.

(** The layer of the table, over keys that otherwise pass through. *)
Definition layer_machine (vs : vars) (ev : event) : list string * vars :=
  layer_step spacefn_layer vs ev (passthrough ev, vs).

Definition layer_key (k : string) : bool := bool_decide (k ∈ spacefn_layer.*1).

(** An event on a layer key: the key alone, or with the spacebar in
    either order. *)
Definition on_layer (ev : event) : bool :=
  match ev with
  | KeyDown k => layer_key k
  | ChordDown k1 k2 | ChordUp k1 k2 =>
      (String.eqb k1 "spacebar" && layer_key k2) || (layer_key k1 && String.eqb k2 "spacebar")
  end.

(** The value a [set_variable] item assigns, if it is one. *)
Definition item_set (t : json) : option (string * Z) :=
  match json_get t "set_variable" with
  | Some sv =>
      match as_string (json_get sv "name"), json_get sv "value" with
      | Some n, Some (JNumber v) => Some (n, v)
      | _, _ => None
      end
  | None => None
  end.

(** Every item a manipulator can run, on a key down or on a chord release. *)
Definition all_actions (m : json) : list json :=
  as_array (json_get m "to") ++ as_array (get_path ["from"; "simultaneous_options"; "to_after_key_up"] m).

(** Does every assignment in [ms] write 0 or 1 to [n], and to no other
    variable? *)
Definition assigns_only (n : string) (ms : list json) : bool :=
  forallb (λ m, forallb (λ t, match item_set t with
                              | Some (n', v) => String.eqb n' n && (Z.eqb v 0 || Z.eqb v 1)
                              | None => true
                              end) (all_actions m)) ms.

(** The stores holding at most the variable [n], set to 0 or 1. *)
Definition toggle_store (n : string) (vs : vars) : Prop :=
  vs = [] ∨ ∃ v, (v = 0%Z ∨ v = 1%Z) ∧ vs = [(n, v)].

Definition number_row : list string := ["1"; "2"; "3"; "4"; "5"; "6"; "7"; "8"; "9"; "0"; "-"; "="].

Definition f_row : list string :=
  ["f1"; "f2"; "f3"; "f4"; "f5"; "f6"; "f7"; "f8"; "f9"; "f10"; "f11"; "f12"].

(** ** The engine's laws *)

(** Manipulators that do not take the event can be skipped. *)
Lemma step_skip ms1 ms2 vs ev :
  (∀ m, m ∈ ms1 → takes vs ev m = false) → step (ms1 ++ ms2) vs ev = step ms2 vs ev.
Proof. intros H. unfold step. by rewrite find_app, find_none. Qed.

(** The store after one item: an assignment or nothing. *)
Lemma run_item_store acc t :
  (run_item acc t).2 = match item_set t with Some (n, v) => assoc_set acc.2 n v | None => acc.2 end.
Proof.
  unfold run_item, item_set. destruct (json_get t "set_variable") as [sv|].
  - by destruct (as_string (json_get sv "name")), (json_get sv "value") as [[]|].
  - by destruct (as_string (json_get t "key_code")).
Qed.

(** A property of stores that every assignment of the items keeps holds
    after running them, and after one step of the engine. *)
Lemma run_items_store vs ts (Q : vars → Prop) :
  Q vs → (∀ t n v vs', t ∈ ts → item_set t = Some (n, v) → Q vs' → Q (assoc_set vs' n v)) →
  Q (run_items vs ts).2.
Proof.
  unfold run_items. generalize (@nil string) as out. revert vs.
  induction ts as [|t ts IH]; intros vs out Hvs Hts; [done|]. cbn [fold_left].
  destruct (run_item (out, vs) t) as [out' vs'] eqn:E. apply IH; [|set_solver].
  change vs' with (out', vs').2. rewrite <- E, run_item_store.
  destruct (item_set t) as [[n v]|] eqn:Ht; [|done]. apply (Hts t n v); [set_solver|done..].
Qed.

Lemma step_store ms vs ev (Q : vars → Prop) :
  Q vs →
  (∀ m t n v vs', m ∈ ms → t ∈ all_actions m → item_set t = Some (n, v) → Q vs' → Q (assoc_set vs' n v)) →
  Q (step ms vs ev).2.
Proof.
  intros Hvs Hms. unfold step.
  destruct (List.find (takes vs ev) ms) as [m|] eqn:Hf; [|done].
  apply List.find_some in Hf as [Hm _]. apply run_items_store; [done|].
  intros t n v vs' Ht. apply (Hms m); [by apply list_elem_of_In|..].
  unfold all_actions. destruct ev; simpl in Ht; set_solver.
Qed.

Lemma assigns_only_spec n ms :
  assigns_only n ms = true →
  ∀ m t n' v, m ∈ ms → t ∈ all_actions m → item_set t = Some (n', v) → n' = n ∧ (v = 0%Z ∨ v = 1%Z).
Proof.
  unfold assigns_only. rewrite forallb_forall. intros H m t n' v Hm Ht Hset.
  apply list_elem_of_In in Hm, Ht. specialize (H m Hm). rewrite forallb_forall in H.
  specialize (H t Ht). rewrite Hset, andb_true_iff, orb_true_iff, !Z.eqb_eq, String.eqb_eq in H. tauto.
Qed.

Lemma toggle_store_set n vs v : toggle_store n vs → v = 0%Z ∨ v = 1%Z → toggle_store n (assoc_set vs n v).
Proof.
  intros [-> | (v' & _ & ->)] Hv; right; exists v; split; [done| |done|]; cbn; by rewrite ?String.eqb_refl.
Qed.

(** Rule induction: when every assignment writes 0 or 1 to [n], the
    reachable stores are the empty one and the two with [n] alone. *)
Lemma reachable_toggle_store ms n vs : assigns_only n ms = true → reachable ms vs → toggle_store n vs.
Proof.
  intros Hms Hr. induction Hr as [|vs ev Hr IH]; [by left|].
  apply step_store; [done|]. intros m t n' v vs' Hm Ht Hset Hq.
  destruct (assigns_only_spec n ms Hms m t n' v Hm Ht Hset) as [-> Hv]. by apply toggle_store_set.
Qed.

(** A chord of the spacebar and another key, in the other order. *)
Lemma keys_misordered x : x ≠ "spacebar" → keys_eqb ["spacebar"; x] [x; "spacebar"] = false.
Proof. intros Hx. cbn [keys_eqb]. by rewrite (proj2 (String.eqb_neq "spacebar" x)) by congruence. Qed.

(** First match does not depend on the order of two candidates that never
    both match. *)
Lemma find_swap {A} (f : A → bool) a b l :
  f a = false ∨ f b = false → List.find f (a :: b :: l) = List.find f (b :: a :: l).
Proof. cbn. intros [-> | ->]; by destruct (f _). Qed.

(** ** The moves of a SpaceFN pair *)

(** Evaluates [step] on a pair [spaceFN x y ++ post] for a symbolic key
    [x]: the chord and the key are matched by comparing [x] with itself. *)
Ltac spacefn_move := unfold step, takes; cbn; rewrite ?String.eqb_refl; cbn; rewrite ?orb_true_r; cbn.

(** ** Properties *)

(** C3: Invariant of the engine's store, by rule induction: under the
    Default profile every reachable store is empty or holds the one
    variable [SpaceFN], set to 0 or 1; no other variable is ever created
    and the variable is never duplicated. *)
Theorem reachable_store_shape vs :
  reachable (profile_manipulators DEFAULT_PROFILE) vs →
  vs = [] ∨ vs = [("SpaceFN", 0%Z)] ∨ vs = [("SpaceFN", 1%Z)].
Proof.
  intros Hr. assert (Hms : assigns_only "SpaceFN" (profile_manipulators DEFAULT_PROFILE) = true)
    by (vm_compute; reflexivity).
  destruct (reachable_toggle_store _ _ _ Hms Hr) as [-> | (v & [-> | ->] & ->)]; auto.
Qed.

(** C10: Ordering: spec section 9 leaves open whether the order of the two
    entries of [spaceFN x y] matters to the runtime.  It does not: no event
    is taken by both entries (one matches a chord, the other a single key),
    so the pair in either order, between any manipulators, behaves the
    same on every event and every store. *)
Theorem spaceFN_order_irrelevant x y pre post vs ev :
  step (pre ++ rev (spaceFN x y) ++ post) vs ev = step (pre ++ spaceFN x y ++ post) vs ev.
Proof.
  unfold step. rewrite !find_app. destruct (List.find (takes vs ev) pre); [done|].
  cbn [spaceFN rev app]. rewrite find_swap; [done|].
  destruct ev; [right|left|left]; vm_compute; reflexivity.
Qed.

(** C1: The SpaceFN pair [spaceFN x y], placed after manipulators that do
    not take its events, implements the layer of spec section 4.3: the
    chord space-then-[x] turns the toggle on and emits [y]; while the toggle
    is on, [x] alone emits [y] and leaves the store alone; releasing the
    chord in inverse order turns the toggle off; while the toggle is off,
    [x] falls through to the manipulators after the pair. *)
Theorem spaceFN_layer x y pre post vs :
  Forall (λ m, takes vs (ChordDown "spacebar" x) m = false ∧ takes vs (KeyDown x) m = false ∧
               takes vs (ChordUp x "spacebar") m = false) pre →
  step (pre ++ spaceFN x y ++ post) vs (ChordDown "spacebar" x) = ([y], assoc_set vs "SpaceFN" 1%Z) ∧
  (var_value vs "SpaceFN" = 1%Z → step (pre ++ spaceFN x y ++ post) vs (KeyDown x) = ([y], vs)) ∧
  step (pre ++ spaceFN x y ++ post) vs (ChordUp x "spacebar") = ([], assoc_set vs "SpaceFN" 0%Z) ∧
  (var_value vs "SpaceFN" ≠ 1%Z →
   step (pre ++ spaceFN x y ++ post) vs (KeyDown x) = step post vs (KeyDown x)).
Proof.
  rewrite Forall_forall. intros Hpre.
  split; [|split; [intros Hon|split; [|intros Hoff]]];
    (rewrite step_skip; [|intros m Hm; by destruct (Hpre m Hm) as (?&?&?)]).
  - by spacefn_move.
  - spacefn_move. by rewrite Hon.
  - by spacefn_move.
  - spacefn_move. by rewrite (proj2 (Z.eqb_neq _ _) Hoff).
Qed.

(** C9: Ordering of the chord (spec section 4.3: strict press order,
    strict-inverse release order).  For every key [x] other than the
    spacebar, every target [y] and every store, the SpaceFN pair leaves to
    the manipulators after it the chord pressed key-first (so the layer is
    not turned on) and the chord released spacebar-first (so the toggle is
    not reset: after such a release the layer stays on). *)
Theorem spaceFN_chord_strict x y pre post vs :
  x ≠ "spacebar" →
  Forall (λ m, takes vs (ChordDown x "spacebar") m = false ∧ takes vs (ChordUp "spacebar" x) m = false) pre →
  step (pre ++ spaceFN x y ++ post) vs (ChordDown x "spacebar") = step post vs (ChordDown x "spacebar") ∧
  step (pre ++ spaceFN x y ++ post) vs (ChordUp "spacebar" x) = step post vs (ChordUp "spacebar" x).
Proof.
  rewrite Forall_forall. intros Hx Hpre.
  split; (rewrite step_skip; [|intros m Hm; by destruct (Hpre m Hm)]);
    unfold step, takes; cbn -[keys_eqb]; by rewrite keys_misordered.
Qed.

(** ** The table machine *)

(** One SpaceFN pair is the machine of its one-entry table, over the
    manipulators after it. *)
Lemma spaceFN_step x y rest vs ev :
  step (spaceFN x y ++ rest) vs ev = layer_step [(x, y)] vs ev (step rest vs ev).
Proof.
  destruct ev as [k|k1 k2|k1 k2]; unfold step at 1, takes, spaceFN;
    remember "spacebar" as sp eqn:Hsp; cbn; subst sp.
  - destruct (String.eqb k x), (Z.eqb _ 1); reflexivity.
  - rewrite (String.eqb_sym "spacebar" k1), (String.eqb_sym x k2).
    destruct (String.eqb k2 x), (String.eqb k1 "spacebar"); reflexivity.
  - rewrite (String.eqb_sym "spacebar" k2), (String.eqb_sym x k1).
    destruct (String.eqb k1 x), (String.eqb k2 "spacebar"); reflexivity.
Qed.

Lemma layer_step_nil vs ev r : layer_step [] vs ev r = r.
Proof. by destruct ev. Qed.

(** The first entry for a key decides. *)
Lemma layer_step_cons x y T vs ev r :
  layer_step ((x, y) :: T) vs ev r = layer_step [(x, y)] vs ev (layer_step T vs ev r).
Proof.
  destruct ev as [k|k1 k2|k1 k2]; cbn [layer_step assoc_get].
  - destruct (String.eqb k x); [|done]. destruct (assoc_get T k), (Z.eqb _ 1) eqn:E; rewrite ?E; done.
  - destruct (String.eqb k2 x); [|done]. destruct (assoc_get T k2), (String.eqb k1 _) eqn:E; rewrite ?E; done.
  - destruct (String.eqb k1 x); [|done]. destruct (assoc_get T k1), (String.eqb k2 _) eqn:E; rewrite ?E; done.
Qed.

(** Refinement: the SpaceFN pairs of a whole table, in table order, are
    the machine of the table, for every table, store and event. *)
Lemma spaceFN_table_step T post vs ev :
  step (flat_map (λ p, spaceFN p.1 p.2) T ++ post) vs ev = layer_step T vs ev (step post vs ev).
Proof.
  induction T as [|[x y] T IH]; [by rewrite layer_step_nil|].
  cbn [flat_map fst snd]. by rewrite <- app_assoc, spaceFN_step, IH, <- layer_step_cons.
Qed.

Lemma run_with_ext (f g : vars → event → list string * vars) vs evs :
  (∀ vs ev, ev ∈ evs → f vs ev = g vs ev) → run_with f vs evs = run_with g vs evs.
Proof.
  revert vs. induction evs as [|ev evs IH]; intros vs H; [done|]. cbn [run_with].
  rewrite H by set_solver. rewrite IH; [done|]. intros; apply H; set_solver.
Qed.

Lemma layer_key_cases k :
  layer_key k = true → Exists (λ p, k = p.1) spacefn_layer.
Proof.
  unfold layer_key. rewrite bool_decide_eq_true, list_elem_of_fmap.
  intros ([k' y] & -> & Hin). apply Exists_exists. by exists (k', y).
Qed.

(** The rules of the Default profile after the SpaceFN rule. *)
Definition default_rest : list json := flat_map rule_manipulators [CAPS_RULE; RETURN_RULE; TAB_RULE; SHIFT_RULE].

(** No rule after the SpaceFN rule takes an event on a layer key. *)
Lemma default_rest_passes vs ev : on_layer ev = true → step default_rest vs ev = (passthrough ev, vs).
Proof.
  assert (H : Forall (λ p, ∀ vs, step default_rest vs (KeyDown p.1) = ([p.1], vs) ∧
             step default_rest vs (ChordDown "spacebar" p.1) = (["spacebar"; p.1], vs) ∧
             step default_rest vs (ChordDown p.1 "spacebar") = ([p.1; "spacebar"], vs) ∧
             step default_rest vs (ChordUp "spacebar" p.1) = ([], vs) ∧
             step default_rest vs (ChordUp p.1 "spacebar") = ([], vs)) spacefn_layer).
  { repeat (apply List.Forall_cons; [intros; split_and!; vm_compute; reflexivity|]). apply List.Forall_nil. }
  rewrite List.Forall_forall in H.
  destruct ev as [k|k1 k2|k1 k2]; cbn [on_layer];
    rewrite ?orb_true_iff, ?andb_true_iff, ?String.eqb_eq;
    intros Hk; repeat destruct Hk as [Hk|Hk]; destruct_and?; subst;
    match goal with Hl : layer_key ?k = true |- _ =>
      apply layer_key_cases, Exists_exists in Hl as ([k' y] & Hin%list_elem_of_In & ->);
      destruct (H _ Hin vs) as (?&?&?&?&?); cbn [fst] in *; done end.
Qed.

(** C2: Refinement of the Default profile by the layer of spec section 4.3
    (the table of lines 187-205): from every store, on every sequence of
    events on layer keys (a layer key alone, or with the spacebar in either
    order), the Default profile's manipulators emit and store exactly what
    the table machine [layer_machine] does: the SpaceFN rule is the table
    pair by pair, and no other rule takes these events. *)
Theorem default_layer_refines vs evs :
  forallb on_layer evs = true →
  run (profile_manipulators DEFAULT_PROFILE) vs evs = run_with layer_machine vs evs.
Proof.
  intros Hevs. apply run_with_ext. intros vs' ev Hev.
  assert (Hms : profile_manipulators DEFAULT_PROFILE
                = flat_map (λ p, spaceFN p.1 p.2) spacefn_layer ++ default_rest) by (vm_compute; reflexivity).
  rewrite Hms, spaceFN_table_step, default_rest_passes; [done|].
  rewrite forallb_forall in Hevs. by apply Hevs, list_elem_of_In.
Qed.

(** Finding: the layer's number row mirrors the F-key row of the
    Vanilla profile (1 like F1, ..., 0 like F10, - like F11, = like F12)
    except at 9, where the layer emits [fast_forward] and F9 [fastforward]. *)
Lemma layer_number_row_vs_fn_row :
  filter (λ p, bool_decide (p.1 ≠ p.2))
    (zip (map (λ x, (step (profile_manipulators DEFAULT_PROFILE) [] (ChordDown "spacebar" x)).1) number_row)
         (map (λ f, [simple_remap VANILLA_FN_KEYS f]) f_row))
  = [(["fast_forward"], ["fastforward"])].
Proof. vm_compute. reflexivity. Qed.

(** ** Witnesses *)

Lemma spaceFN_layer_witness :
  Forall (λ m, takes [] (ChordDown "spacebar" "h") m = false ∧ takes [] (KeyDown "h") m = false ∧
               takes [] (ChordUp "h" "spacebar") m = false) (spaceFN "b" "spacebar") ∧
  step (spaceFN "b" "spacebar" ++ spaceFN "h" "left_arrow" ++ []) [] (ChordDown "spacebar" "h")
    = (["left_arrow"], assoc_set [] "SpaceFN" 1%Z) ∧
  (var_value [] "SpaceFN" = 1%Z →
   step (spaceFN "b" "spacebar" ++ spaceFN "h" "left_arrow" ++ []) [] (KeyDown "h") = (["left_arrow"], [])) ∧
  step (spaceFN "b" "spacebar" ++ spaceFN "h" "left_arrow" ++ []) [] (ChordUp "h" "spacebar")
    = ([], assoc_set [] "SpaceFN" 0%Z) ∧
  (var_value [] "SpaceFN" ≠ 1%Z →
   step (spaceFN "b" "spacebar" ++ spaceFN "h" "left_arrow" ++ []) [] (KeyDown "h") = step [] [] (KeyDown "h")).
Proof.
  assert (H : Forall (λ m, takes [] (ChordDown "spacebar" "h") m = false ∧ takes [] (KeyDown "h") m = false ∧
               takes [] (ChordUp "h" "spacebar") m = false) (spaceFN "b" "spacebar")) by kb_decide.
  split; [exact H|apply spaceFN_layer, H].
Defined.

Lemma reachable_store_shape_witness :
  reachable (profile_manipulators DEFAULT_PROFILE) [("SpaceFN", 1%Z)] ∧
  ([("SpaceFN", 1%Z)] = [] ∨ [("SpaceFN", 1%Z)] = [("SpaceFN", 0%Z)] ∨ [("SpaceFN", 1%Z)] = [("SpaceFN", 1%Z)]).
Proof.
  assert (Hr : reachable (profile_manipulators DEFAULT_PROFILE) [("SpaceFN", 1%Z)]).
  { change [("SpaceFN", 1%Z)]
      with (step (profile_manipulators DEFAULT_PROFILE) [] (ChordDown "spacebar" "b")).2.
    apply reach_step, reach_init. }
  split; [exact Hr|apply reachable_store_shape, Hr].
Defined.

Lemma default_layer_refines_witness :
  let evs := [KeyDown "h"; ChordDown "spacebar" "h"; KeyDown "h"; ChordUp "spacebar" "h"; KeyDown "h";
              ChordDown "j" "spacebar"; ChordUp "h" "spacebar"; KeyDown "h"] in
  forallb on_layer evs = true ∧
  run (profile_manipulators DEFAULT_PROFILE) [] evs = run_with layer_machine [] evs.
Proof. intros evs. split; [reflexivity|apply default_layer_refines; reflexivity]. Defined.

Lemma spaceFN_chord_strict_witness :
  "h" ≠ "spacebar" ∧
  Forall (λ m, takes [] (ChordDown "h" "spacebar") m = false ∧ takes [] (ChordUp "spacebar" "h") m = false)
    (spaceFN "b" "spacebar") ∧
  step (spaceFN "b" "spacebar" ++ spaceFN "h" "left_arrow" ++ []) [] (ChordDown "h" "spacebar")
    = step [] [] (ChordDown "h" "spacebar") ∧
  step (spaceFN "b" "spacebar" ++ spaceFN "h" "left_arrow" ++ []) [] (ChordUp "spacebar" "h")
    = step [] [] (ChordUp "spacebar" "h").
Proof.
  assert (H : Forall (λ m, takes [] (ChordDown "h" "spacebar") m = false ∧ takes [] (ChordUp "spacebar" "h") m = false)
                (spaceFN "b" "spacebar")) by kb_decide.
  split_and!; [done|exact H|apply spaceFN_chord_strict; [done|exact H]..].
Defined.
